(** * Mapping-Museums-Data-Vis: the grouped-point map and its filter chain

    A shallow embedding of [src/scripts/classes/Map.js] (the greedy
    haversine clusterer, the square-root point scale, the region toggle)
    and of [src/scripts/data/map-data.js] (the region filter, the date
    filter, the line-chart artifact filter and the slider callback),
    followed by the properties the specification states about them.

    Number model.  Latitudes, longitudes and distances are JavaScript
    doubles in the source; here they are real numbers, so [Math.sin],
    [Math.cos], [Math.sqrt] and [Math.PI] are the functions and the constant
    of the Standard Library's reals, [Math.atan2] is defined from [atan],
    and no rounding takes place.  Counts are natural numbers.  Year
    columns are produced by the unary [+] of the CSV loader and may be
    [NaN]; they are modelled by [jsnum], an integer or [NaN], with the
    comparison operators of JavaScript (every comparison with [NaN] is
    false).

    Rendering.  The d3 selections are not modelled: a map keeps the
    groups last bound to its circles and the page keeps the rows last
    given to the line chart.  In the filter chain a rendering call
    completes, as it does on the loaded page; the two filters are given
    a second time over rendering calls that may throw, and what holds of
    exceptions is proved of those. *)

From Stdlib Require Import Reals Lra Lia ZArith.
From stdpp Require Import base option list gmap strings.

(** ** JavaScript numbers in the year columns *)

Module Js.

Inductive jsnum : Type :=
  | NaN : jsnum
  | Num : Z -> jsnum.

(** [a <= b] *)
Definition le (a b : jsnum) : bool :=
  match a, b with
  | Num x, Num y => (x <=? y)%Z
  | _, _ => false
  end.

(** [a > b] *)
Definition gt (a b : jsnum) : bool :=
  match a, b with
  | Num x, Num y => (y <? x)%Z
  | _, _ => false
  end.

(** [a == b] between two numbers *)
Definition eq (a b : jsnum) : bool :=
  match a, b with
  | Num x, Num y => (x =? y)%Z
  | _, _ => false
  end.

Definition isNaN (a : jsnum) : bool :=
  match a with
  | NaN => true
  | Num _ => false
  end.

End Js.

Abbreviation jsnum := Js.jsnum.

(** ** Data model *)

(** A latitude/longitude pair, the array [[lat, lon]]. *)
Definition LatLon : Type := (R * R)%type.

(** A row of [points] in map-data.js:
    [[latitude, longitude, region, year_opened_low, year_opened_high,
      year_closed_low]], indices 0 to 5. *)
Record Point : Type := mkPoint {
  latitude : R;            (* d[0] *)
  longitude : R;           (* d[1] *)
  region : string;         (* d[2] *)
  year_opened_low : jsnum; (* d[3] *)
  year_opened_high : jsnum;(* d[4] *)
  year_closed_low : jsnum  (* d[5] *)
}.

(** [[point[0], point[1]]] *)
Definition coords (p : Point) : LatLon := (latitude p, longitude p).

(** A group of the clusterer, the array [[[lat, lon], count]]. *)
Definition Group : Type := (LatLon * nat)%type.

(** ** The distance function (Map.js, [haversineDistance]) *)

Section Haversine.
Open Scope R_scope.

(** [Math.atan2(y, x)] on the reals. *)
Definition atan2 (y x : R) : R :=
  if Rlt_dec 0 x then atan (y / x)
  else if Rlt_dec x 0 then
    (if Rle_dec 0 y then atan (y / x) + PI else atan (y / x) - PI)
  else if Rlt_dec 0 y then PI / 2
  else if Rlt_dec y 0 then - (PI / 2)
  else 0.

Definition haversineDistance (coords1 coords2 : LatLon) : R :=
  let '(lat1, lon1) := coords1 in
  let '(lat2, lon2) := coords2 in
  (* Earth radius in kilometers *)
  let R_earth := 6371 in
  let dLat := (lat2 - lat1) * (PI / 180) in
  let dLon := (lon2 - lon1) * (PI / 180) in
  let a :=
    sin (dLat / 2) * sin (dLat / 2) +
    cos (lat1 * (PI / 180)) * cos (lat2 * (PI / 180)) *
    sin (dLon / 2) * sin (dLon / 2) in
  let c := 2 * atan2 (sqrt a) (sqrt (1 - a)) in
  R_earth * c.

End Haversine.

(** The comparison [distance < shortestDistance] is decided on the reals. *)
#[global] Instance Rlt_decision (x y : R) : Decision (x < y)%R := Rlt_dec x y.

(** ** The greedy clusterer (Map.js, [#groupCoordinates]) *)

Section Clusterer.

(** The threshold [maxDistance] closed over by [mergeIntoClosestGroup];
    [None] is [undefined], the value of [this.groupRadius] on a map whose
    points were never rendered. *)
Variable maxDistance : option R.

(** [distance < shortestDistance]; a comparison with [undefined] is false. *)
Definition js_lt (distance : R) (shortestDistance : option R) : bool :=
  match shortestDistance with
  | Some s => bool_decide (distance < s)%R
  | None => false
  end.

(** The [for] loop of [mergeIntoClosestGroup]: [i] is the loop index,
    [rest] the groups from index [i] on, and the two accumulators are the
    variables [closestGroup] and [shortestDistance]. *)
Fixpoint closestLoop (point : Point) (rest : list Group) (i : nat)
    (closestGroup : option nat) (shortestDistance : option R)
    : option nat * option R :=
  match rest with
  | [] => (closestGroup, shortestDistance)
  | g :: rest' =>
      let distance := haversineDistance (coords point) g.1 in
      if js_lt distance shortestDistance
      then closestLoop point rest' (S i) (Some i) (Some distance)
      else closestLoop point rest' (S i) closestGroup shortestDistance
  end.

(** The value of [closestGroup] when the loop ends ([None] is [null]). *)
Definition closestGroup (point : Point) (groups : list Group) : option nat :=
  (closestLoop point groups 0 None maxDistance).1.

(** The group written back by the merge branch: [newLat], [newLon] and
    the incremented count. *)
Definition mergedGroup (point : Point) (group : Group) : Group :=
  let '(groupPoint, count) := group in
  let newLat := ((groupPoint.1 * INR count + latitude point) / (INR count + 1))%R in
  let newLon := ((groupPoint.2 * INR count + longitude point) / (INR count + 1))%R in
  ((newLat, newLon), (count + 1)%nat).

Definition mergeIntoClosestGroup (point : Point) (groups : list Group) : list Group :=
  match closestGroup point groups with
  | Some i =>
      (* Update existing group, count and average coordinates *)
      match groups !! i with
      | Some group => <[i := mergedGroup point group]> groups
      | None => groups
      end
  | None =>
      (* Create new group *)
      groups ++ [((latitude point, longitude point), 1%nat)]
  end.

(** [coordinates.forEach(point => mergeIntoClosestGroup(point, groups))],
    from the groups accumulated so far. *)
Definition forEachPoint (coordinates : list Point) (groups : list Group) : list Group :=
  fold_left (fun groups point => mergeIntoClosestGroup point groups) coordinates groups.

Definition groupCoordinates (coordinates : list Point) : list Group :=
  let groups := forEachPoint coordinates [] in
  map (fun group => (group.1, group.2)) groups.

End Clusterer.

(** ** The point-size scale (Map.js, [#createSqrtScale]) *)

(** Modelled from the spec: the d3 library ([lib/d3/d3.v7.min.js]) is not
    among the sources.  [d3.max(groups, d => d[1])] is the largest count,
    [undefined] (here [None]) for an empty array. *)
Definition d3_max (counts : list nat) : option nat :=
  match counts with
  | [] => None
  | c :: counts' => Some (foldr Nat.max c counts')
  end.

(** Modelled from the spec: [d3.scaleSqrt([0, max], [0, maxRadius])] is
    kept as its two upper bounds, and applied it maps a count to a radius
    by a square-root relationship, radius = maxRadius * sqrt(count / max).
    Without a positive domain bound or without a range bound there is no
    radius ([None]). *)
Record SqrtScale : Type := scaleSqrt {
  domainMax : option nat;
  rangeMax : option R
}.

Definition applyScale (scale : SqrtScale) (count : nat) : option R :=
  match domainMax scale, rangeMax scale with
  | Some (S m), Some r => Some (r * (sqrt (INR count) / sqrt (INR (S m))))%R
  | _, _ => None
  end.

(** ** The state of a [Map] instance *)

(** A [path.regions] element: its [name] attribute and whether its
    [data-highlighted] attribute is the string ["true"]. *)
Record RegionPath : Type := mkRegionPath {
  name : string;
  data_highlighted : bool
}.

(** The fields of the class that the modelled methods read or write.
    [None] is [undefined], the value of a field before its first
    assignment.  [circles] is the array [groupedData] bound to the
    [circle.point] selection, the clusterer's output as the renderer last
    received it. *)
Record MapState : Type := mkMap {
  regionPaths : list RegionPath;
  selectedRegions : gset string;
  data : option (list Point);
  filteredData : option (list Point);
  pointScale : option SqrtScale;
  maxRadius : option R;
  groupRadius : option R;
  circles : list Group
}.

Definition set_regions (paths : list RegionPath) (sel : gset string) (m : MapState) : MapState :=
  mkMap paths sel (data m) (filteredData m) (pointScale m) (maxRadius m) (groupRadius m) (circles m).

Definition set_filteredData (newData : list Point) (m : MapState) : MapState :=
  mkMap (regionPaths m) (selectedRegions m) (data m) (Some newData) (pointScale m)
        (maxRadius m) (groupRadius m) (circles m).

Definition set_circles (groupedData : list Group) (m : MapState) : MapState :=
  mkMap (regionPaths m) (selectedRegions m) (data m) (filteredData m) (pointScale m)
        (maxRadius m) (groupRadius m) groupedData.

(** The instance after the constructor: nothing assigned yet. *)
Definition newMap : MapState := mkMap [] ∅ None None None None None [].

(** [baseMap] and [#renderMap]: one path per feature, every one
    highlighted, and every feature name selected.  [names] lists
    [properties.name] of [regions.features]. *)
Definition baseMap (names : list string) (m : MapState) : MapState :=
  set_regions (map (fun n => mkRegionPath n true) names) (list_to_set names) m.

(** [#toggleRegion], for a click on the [i]-th path. *)
Definition toggleRegion (i : nat) (m : MapState) : MapState :=
  match regionPaths m !! i with
  | None => m
  | Some region =>
      let isHighlighted := data_highlighted region in
      (* Update the data attribute to reflect the new state *)
      let paths := <[i := mkRegionPath (name region) (negb isHighlighted)]> (regionPaths m) in
      (* Update the selection set *)
      if negb isHighlighted
      then set_regions paths ({[name region]} ∪ selectedRegions m) m
      else set_regions paths (selectedRegions m ∖ {[name region]}) m
  end.

(** [#createSqrtScale(data)], reading [this.groupRadius] and [this.maxRadius]. *)
Definition createSqrtScale (dataset : list Point) (m : MapState) : SqrtScale :=
  let groups := groupCoordinates (groupRadius m) dataset in
  let max := d3_max (map snd groups) in
  scaleSqrt max (maxRadius m).

(** The private [#renderGroupedPoints(data)]: cluster and bind. *)
Definition renderGroupedPoints_private (dataset : list Point) (m : MapState) : MapState :=
  let groupedData := groupCoordinates (groupRadius m) dataset in
  set_circles groupedData m.

(** The public [renderGroupedPoints(dataset, maxRadius = 15, groupRadius = 40)];
    an argument left out is [None]. *)
Definition renderGroupedPoints (dataset : list Point) (maxRadius' groupRadius' : option R)
    (m : MapState) : MapState :=
  let maxRadius' := default 15%R maxRadius' in
  let groupRadius' := default 40%R groupRadius' in
  let m1 := mkMap (regionPaths m) (selectedRegions m) (Some dataset) (Some dataset)
                  (pointScale m) (Some maxRadius') (Some groupRadius') (circles m) in
  let m2 := mkMap (regionPaths m1) (selectedRegions m1) (data m1) (filteredData m1)
                  (Some (createSqrtScale dataset m1)) (maxRadius m1) (groupRadius m1)
                  (circles m1) in
  renderGroupedPoints_private dataset m2.

(** [updatePoints(newData)], with the argument given. *)
Definition updatePoints (newData : list Point) (m : MapState) : MapState :=
  renderGroupedPoints_private newData m.

(** ** The page of map-data.js: state, exceptions and the handler monad *)

(** The exception that a handler can meet: a property read on [undefined]. *)
Inductive exn : Type :=
  | TypeError (reading : string).

(** The objects the module keeps at top level.  [lineChart] holds the rows
    behind the series last handed to [lineChart.render], that is the
    argument [calculateRollup] received; [console] lists what
    [console.log] printed, latest first. *)
Record Page : Type := mkPage {
  mapRegions : MapState;
  lineChart : option (list Point);
  slider_currentValue : jsnum;
  console : list exn
}.

Definition set_map (m : MapState) (pg : Page) : Page :=
  mkPage m (lineChart pg) (slider_currentValue pg) (console pg).

Definition set_lineChart (rows : list Point) (pg : Page) : Page :=
  mkPage (mapRegions pg) (Some rows) (slider_currentValue pg) (console pg).

Definition set_currentValue (v : jsnum) (pg : Page) : Page :=
  mkPage (mapRegions pg) (lineChart pg) v (console pg).

(** How a statement ends: normally with a value, or abruptly. *)
Inductive outcome (A : Type) : Type :=
  | Return (a : A)
  | Throw (e : exn).
Arguments Return {A} a.
Arguments Throw {A} e.

(** A computation on the page; the page it leaves behind is kept when it
    throws, as the heap is in JavaScript. *)
Definition M (A : Type) : Type := Page -> outcome A * Page.

#[global] Instance M_ret : MRet M := fun A a pg => (Return a, pg).

#[global] Instance M_bind : MBind M := fun A B k m pg =>
  match m pg with
  | (Return a, pg') => k a pg'
  | (Throw e, pg') => (Throw e, pg')
  end.

Definition throw {A : Type} (e : exn) : M A := fun pg => (Throw e, pg).

Definition gets {A : Type} (f : Page -> A) : M A := fun pg => (Return (f pg), pg).

Definition modify (f : Page -> Page) : M unit := fun pg => (Return tt, f pg).

(** [try { body } catch (e) { handler(e) }] *)
Definition try_catch {A : Type} (body : M A) (handler : exn -> M A) : M A := fun pg =>
  match body pg with
  | (Throw e, pg') => handler e pg'
  | r => r
  end.

Definition console_log (e : exn) : M unit :=
  modify (fun pg => mkPage (mapRegions pg) (lineChart pg) (slider_currentValue pg) (e :: console pg)).

(** [array.filter(...)] on a field that may be [undefined]. *)
Definition the_array (field : MapState -> option (list Point)) : M (list Point) :=
  o ← gets (fun pg => field (mapRegions pg));
  match o with
  | Some rows => mret rows
  | None => throw (TypeError "filter")
  end.

(** ** map-data.js *)

(** The rows [filterLineChartData] keeps, [newData] in the source; the
    source hands them to [calculateRollup], which counts openings and
    closures per year and which no property below looks into. *)
Definition filterLineChartData (rows : list Point) : list Point :=
  List.filter (fun d =>
    negb ((Js.eq (year_opened_low d) (Js.Num 1945) || Js.eq (year_opened_low d) (Js.Num 1960))
          && Js.eq (year_opened_high d) (Js.Num 2017))) rows.

(** The predicate of [filterOnDate]:
    [d[3] <= date && (d[5] > date || isNaN(d[5]))]. *)
Definition openAt (date : jsnum) (d : Point) : bool :=
  Js.le (year_opened_low d) date
  && (Js.gt (year_closed_low d) date || Js.isNaN (year_closed_low d)).

(** [filterOnDate(map, lineChart, date)] on the page's map and line chart. *)
Definition filterOnDate_body (date : jsnum) : M unit :=
  rows ← the_array filteredData;
  let newData := List.filter (openAt date) rows in
  modify (fun pg => set_map (updatePoints newData (mapRegions pg)) pg);;
  modify (set_lineChart (filterLineChartData rows)).

Definition filterOnDate (date : jsnum) : M unit :=
  try_catch (filterOnDate_body date) console_log.

Definition mapRegionsFilterOnDate (date : jsnum) : M unit :=
  filterOnDate date.

(** [filterOnRegion(region, selectedRegions)], called with the map as [this]. *)
Definition filterOnRegion_body (selected : gset string) : M unit :=
  rows ← the_array data;
  let newData := List.filter (fun d => bool_decide (region d ∈ selected)) rows in
  modify (fun pg => set_map (set_filteredData newData (mapRegions pg)) pg);;
  date ← gets slider_currentValue;
  mapRegionsFilterOnDate date.

Definition filterOnRegion (selected : gset string) : M unit :=
  try_catch (filterOnRegion_body selected) console_log.

(** [sliderCallback]; the redraw of the line chart's background that
    follows is rendering only. *)
Definition sliderCallback : M unit :=
  date ← gets slider_currentValue;
  mapRegionsFilterOnDate date.

(** The two events of the page. *)

(** A click on the [i]-th region path (Map.js, the handler set in
    [#renderMap]): toggle, then call [regionSelectCallback]. *)
Definition regionToggled (i : nat) : M unit :=
  modify (fun pg => set_map (toggleRegion i (mapRegions pg)) pg);;
  selected ← gets (fun pg => selectedRegions (mapRegions pg));
  filterOnRegion selected.

(** A drag of the slider to [value] (Slider.js, the drag handler): store
    the value, then call [onChange]. *)
Definition dateChanged (value : jsnum) : M unit :=
  modify (set_currentValue value);;
  sliderCallback.

(** A tick of the play animation at [value] (Slider.js, [#animateSlider]):
    [onChange] is called first and the value stored after it. *)
Definition playTick (value : jsnum) : M unit :=
  sliderCallback;;
  modify (set_currentValue value).

(** ** The filters when a rendering call throws *)

(** [filterOnDate] calls [map.updatePoints] and [lineChart.render] inside
    its [try], and either can throw after it has changed what is drawn.
    The definitions above take both to complete.  Here they are any
    computations on the page: [join] stands for what
    [#renderGroupedPoints] does with [groupedData] once it is computed
    (Map.js, lines 220 to 243: the total of the points and the data join
    on [circle.point]), and [render] for [lineChart.render], given the
    rows [calculateRollup] receives. *)
Section Renderers.
Variable join : list Group -> M unit.
Variable render : list Point -> M unit.

(** [updatePoints(newData)], that is [#renderGroupedPoints(newData)]. *)
Definition updatePoints_with (newData : list Point) : M unit :=
  radius ← gets (fun pg => groupRadius (mapRegions pg));
  join (groupCoordinates radius newData).

Definition filterOnDate_body_with (date : jsnum) : M unit :=
  rows ← the_array filteredData;
  let newData := List.filter (openAt date) rows in
  updatePoints_with newData;;
  render (filterLineChartData rows).

Definition filterOnDate_with (date : jsnum) : M unit :=
  try_catch (filterOnDate_body_with date) console_log.

Definition filterOnRegion_body_with (selected : gset string) : M unit :=
  rows ← the_array data;
  let newData := List.filter (fun d => bool_decide (region d ∈ selected)) rows in
  modify (fun pg => set_map (set_filteredData newData (mapRegions pg)) pg);;
  date ← gets slider_currentValue;
  filterOnDate_with date.

Definition filterOnRegion_with (selected : gset string) : M unit :=
  try_catch (filterOnRegion_body_with selected) console_log.
End Renderers.

(** What the rendering calls have in common: whatever they draw and
    whether or not they throw, they assign neither [data] nor
    [filteredData] of the map and they print nothing on the console. *)
Definition rendering {A : Type} (c : M A) : Prop :=
  forall pg : Page,
    data (mapRegions (c pg).2) = data (mapRegions pg)
    /\ filteredData (mapRegions (c pg).2) = filteredData (mapRegions pg)
    /\ console (c pg).2 = console pg.

(** The rendering calls that complete: the groups are bound to the
    circles, the rows are handed to the line chart. *)
Definition bindGroups (groupedData : list Group) : M unit :=
  modify (fun pg => set_map (set_circles groupedData (mapRegions pg)) pg).

Definition handRows (rows : list Point) : M unit :=
  modify (set_lineChart rows).


(** ** The clusterer as the specification words it *)

(** The distance from a point to a cluster's centroid. *)
Definition dist (p : Point) (g : Group) : R := haversineDistance (coords p) g.1.

Section SpecClusterer.

Variable threshold : R.

(** "The count-weighted running mean of the old centroid and the new
    point." *)
Definition spec_running_mean (centroid : LatLon) (count : nat) (p : Point) : LatLon :=
  (((INR count * centroid.1 + latitude p) / INR (S count))%R,
   ((INR count * centroid.2 + longitude p) / INR (S count))%R).

(** One point against the clusters formed so far: "scan all existing
    clusters, compute distance to each centroid, and select the cluster
    with the smallest distance strictly less than the threshold.  If no
    such cluster exists, create a new singleton cluster.  On merge, update
    the centroid [...], then increment count." *)
Inductive spec_step (p : Point) (clusters : list Group) : list Group -> Prop :=
  | spec_step_new :
      (forall g, g ∈ clusters -> ~ (dist p g < threshold)%R) ->
      spec_step p clusters (clusters ++ [(coords p, 1%nat)])
  | spec_step_merge (i : nat) (centroid : LatLon) (count : nat) :
      clusters !! i = Some (centroid, count) ->
      (dist p (centroid, count) < threshold)%R ->
      (forall g, g ∈ clusters -> (dist p g < threshold)%R ->
                 (dist p (centroid, count) <= dist p g)%R) ->
      spec_step p clusters
        (<[i := (spec_running_mean centroid count p, S count)]> clusters).

(** "Process points in input order; maintain a growing list of clusters." *)
Inductive spec_clusterer : list Point -> list Group -> list Group -> Prop :=
  | spec_clusterer_done (clusters : list Group) :
      spec_clusterer [] clusters clusters
  | spec_clusterer_point (p : Point) (points : list Point)
        (clusters clusters' final : list Group) :
      spec_step p clusters clusters' ->
      spec_clusterer points clusters' final ->
      spec_clusterer (p :: points) clusters final.

End SpecClusterer.

(** The coordinate-wise arithmetic mean of a list of points. *)
Definition sumR (xs : list R) : R := foldr Rplus 0%R xs.

Definition meanR (xs : list R) : R := (sumR xs / INR (length xs))%R.

Definition centroidOf (points : list Point) : LatLon :=
  (meanR (map latitude points), meanR (map longitude points)).

(** The sum of the counts of a list of groups, [d3.sum(data, d => d[1])]
    of [#totalNumberOfPoints]. *)
Definition totalNumberOfPoints (groups : list Group) : nat :=
  foldr Nat.add 0%nat (map snd groups).

(** ** Sample data *)

(** A museum opened in 1990 and still open, at the given place. *)
Definition museumAt (lat lon : R) : Point :=
  mkPoint lat lon "England" (Js.Num 1990) (Js.Num 1990) Js.NaN.

(** The point where the equator meets the antimeridian, by its two
    longitudes, and the point where it meets the prime meridian. *)
Definition east_180 : Point := museumAt 0 180.
Definition west_180 : Point := museumAt 0 (-180).
Definition origin : Point := museumAt 0 0.

(** Another museum at the place of [east_180]. *)
Definition east_180_b : Point :=
  mkPoint 0 180 "Scotland" (Js.Num 1850) (Js.Num 1850) Js.NaN.

(** A row whose opening range is reversed: low bound 2010, high bound 2000. *)
Definition reversed_range : Point :=
  mkPoint 0 0 "England" (Js.Num 2010) (Js.Num 2000) Js.NaN.

(** A row opened between 1990 and 2000 and still open. *)
Definition opened_1990_2000 : Point :=
  mkPoint 0 0 "England" (Js.Num 1990) (Js.Num 2000) Js.NaN.

(** A row opened between 1945 and 1950 and closed in 2017, and a row of
    unknown opening year, recorded as the range 1945 to 2017. *)
Definition closed_2017 : Point :=
  mkPoint 0 0 "England" (Js.Num 1945) (Js.Num 1950) (Js.Num 2017).
Definition opened_1945_2017 : Point :=
  mkPoint 0 0 "England" (Js.Num 1945) (Js.Num 2017) Js.NaN.

(** ** The page as the module leaves it, and sequences of clicks *)

(** The top level of map-data.js up to the first filter: the map is built
    on the region names, the points are rendered with [maxRadius] 20, and
    the slider starts at [minDate]. *)
Definition startPage (names : list string) (points : list Point) (minDate : jsnum) : Page :=
  mkPage (renderGroupedPoints points (Some 20%R) None (baseMap names newMap)) None minDate [].

(** The page a computation leaves. *)
Definition exec {A : Type} (c : M A) (pg : Page) : Page := (c pg).2.

(** Clicks on the paths of indices [clicks], in order. *)
Definition toggles (clicks : list nat) (m : MapState) : MapState :=
  foldl (fun m i => toggleRegion i m) m clicks.

(** The [data-highlighted] flag of the [i]-th path agrees with the
    membership of its name in the selection. *)
Definition flagAgrees (m : MapState) (i : nat) : Prop :=
  forall r, regionPaths m !! i = Some r ->
            (data_highlighted r = true <-> name r ∈ selectedRegions m).

(** A map that received a filtered subset but no full dataset, and a page
    around it. *)
Definition mapWithoutData : MapState :=
  mkMap [] ∅ None (Some [origin]) None None None [].
Definition pageWithoutData : Page := mkPage mapWithoutData None (Js.Num 2000) [].

(** A map that received a full dataset but no filtered subset. *)
Definition mapWithoutFiltered : MapState :=
  mkMap [] ∅ (Some [origin]) None None None None [].
Definition pageWithoutFiltered : Page := mkPage mapWithoutFiltered None (Js.Num 2000) [].


(** The group a point opens, [[[point[0], point[1]], 1]]. *)
Definition singletonGroup (p : Point) : Group := (coords p, 1%nat).

(** ** The rest of map-data.js: the date range and the loading of the page *)

(** The number behind a year column, if it is one: [d3.min] and [d3.max]
    skip [NaN], [undefined] and [null], here [None]. *)
Definition numeric (a : jsnum) : option Z :=
  match a with
  | Js.NaN => None
  | Js.Num z => Some z
  end.

(** A value that may be [undefined], as a comparison sees it: [undefined]
    fails every comparison, as [NaN] does. *)
Definition js_of (a : option Z) : jsnum :=
  match a with
  | Some z => Js.Num z
  | None => Js.NaN
  end.

(** [d3.min(values)].  d3 is not among the sources; this is the loop its
    documentation describes: the skipped values apart, keep the first
    value and replace it by every later value strictly below it;
    [undefined] when every value is skipped. *)
Definition d3_min (values : list (option Z)) : option Z :=
  foldl (fun min value =>
           match value, min with
           | None, _ => min
           | Some v, None => Some v
           | Some v, Some m => if (v <? m)%Z then Some v else Some m
           end) None values.

(** [d3.max(values)], likewise with every later value strictly above. *)
Definition d3_max_num (values : list (option Z)) : option Z :=
  foldl (fun max value =>
           match value, max with
           | None, _ => max
           | Some v, None => Some v
           | Some v, Some m => if (m <? v)%Z then Some v else Some m
           end) None values.

(** [calculateDates(data)]: the pair [{ minDate, maxDate }], over the
    columns [d[3]] and [d[5]]. *)
Definition calculateDates (rows : list Point) : option Z * option Z :=
  let minDate := d3_min [d3_min (map (fun d => numeric (year_opened_low d)) rows);
                         d3_min (map (fun d => numeric (year_closed_low d)) rows)] in
  let maxDate := d3_max_num [d3_max_num (map (fun d => numeric (year_opened_low d)) rows);
                             d3_max_num (map (fun d => numeric (year_closed_low d)) rows)] in
  (minDate, maxDate).

(** The top level of map-data.js after the objects are built: the first
    date filter at [minDate], then the first drawing of the line chart
    from [mapRegions.filteredData]. *)
Definition firstRender (minDate : jsnum) : M unit :=
  mapRegionsFilterOnDate minDate;;
  rows ← the_array filteredData;
  modify (set_lineChart (filterLineChartData rows)).

Definition loadPage (names : list string) (points : list Point) (minDate : jsnum) : Page :=
  exec (firstRender minDate) (startPage names points minDate).

(** What the user can do on the page, and the handler each action runs. *)
Inductive Event : Type :=
  | RegionClick (i : nat)
  | SliderDrag (value : jsnum)
  | PlayTick (value : jsnum).

Definition handle (ev : Event) : M unit :=
  match ev with
  | RegionClick i => regionToggled i
  | SliderDrag value => dateChanged value
  | PlayTick value => playTick value
  end.

(** The page after the events [evs], one handler after the other. *)
Definition after (evs : list Event) (pg : Page) : Page :=
  foldl (fun pg ev => exec (handle ev) pg) pg evs.

(** ** geo-doughnut-data.js: the callback of the second map *)

(** [toggleCountry(event, selected)] gives [countries] its new value;
    [selected] lists the elements of the set in the order it yields them. *)
Definition toExclude : gset string := {["Ireland"; "Isle of Man"; "Channel Islands"]}.

(** [Array.from(new Set(values))]: the values in order, each kept where
    it first occurs. *)
Definition new_Set (values : list string) : list string :=
  foldl (fun set x => if bool_decide (x ∈ set) then set else set ++ [x]) [] values.

Definition toggleCountry (selected : list string) : list string :=
  new_Set (List.filter (fun x => negb (bool_decide (x ∈ toExclude))) selected).

(** The row filter of [getDoughnut]: [countries.includes(d.admin_area_1)]. *)
Definition countryIncluded (countries : list string) (admin_area_1 : string) : bool :=
  bool_decide (admin_area_1 ∈ countries).

(** A later state of the group list keeps every group at its index and
    does not lower its count. *)
Definition grows (gs gs' : list Group) : Prop :=
  forall (i : nat) (g : Group),
    gs !! i = Some g -> exists g' : Group, gs' !! i = Some g' /\ (g.2 <= g'.2)%nat.

(** Whether a region was clicked among the events. *)
Definition clicked (evs : list Event) : bool :=
  existsb (fun ev => match ev with RegionClick _ => true | _ => false end) evs.

(** What holds of the page of map-data.js once loaded and after every
    event; [wasClicked] tells whether a region was clicked so far. *)
Definition loadedInv (names : list string) (points : list Point) (wasClicked : bool)
    (pg : Page) : Prop :=
  console pg = []
  /\ data (mapRegions pg) = Some points
  /\ groupRadius (mapRegions pg) = Some 40%R
  /\ maxRadius (mapRegions pg) = Some 20%R
  /\ pointScale (mapRegions pg)
     = Some (scaleSqrt (d3_max (map snd (groupCoordinates (Some 40%R) points))) (Some 20%R))
  /\ map name (regionPaths (mapRegions pg)) = names
  /\ selectedRegions (mapRegions pg) ⊆ list_to_set names
  /\ exists rows,
       filteredData (mapRegions pg) = Some rows
       /\ rows = (if wasClicked
                  then List.filter
                         (fun d => bool_decide (region d ∈ selectedRegions (mapRegions pg)))
                         points
                  else points)
       /\ lineChart pg = Some (filterLineChartData rows)
       /\ exists date, circles (mapRegions pg)
                       = groupCoordinates (Some 40%R) (List.filter (openAt date) rows).

(** ** Properties of the clusterer *)

Arguments haversineDistance : simpl never.
Arguments dist : simpl never.

Section ClustererFacts.

Variable maxDistance : option R.

Lemma js_lt_true (d : R) (s : option R) :
  js_lt d s = true <-> exists t, s = Some t /\ (d < t)%R.
Proof.
  destruct s as [t|]; simpl.
  - rewrite bool_decide_eq_true. split; [eauto | intros (? & [= <-] & ?); done].
  - split; [done | intros (? & ? & _); done].
Qed.

Lemma js_lt_false_Some (d t : R) : js_lt d (Some t) = false <-> (t <= d)%R.
Proof.
  simpl. rewrite bool_decide_eq_false. split; lra.
Qed.

Lemma closestLoop_cons (p : Point) (g : Group) (rest : list Group) (i : nat)
    (cg : option nat) (sd : option R) :
  closestLoop p (g :: rest) i cg sd =
  if js_lt (dist p g) sd
  then closestLoop p rest (S i) (Some i) (Some (dist p g))
  else closestLoop p rest (S i) cg sd.
Proof. reflexivity. Qed.

(** What the scan leaves in its two variables. *)
Lemma closestLoop_inv (p : Point) (rest : list Group) :
  forall (i : nat) (cg : option nat) (sd : option R) (cg' : option nat) (sd' : option R),
    closestLoop p rest i cg sd = (cg', sd') ->
    (forall j g, rest !! j = Some g -> js_lt (dist p g) sd' = false) /\
    ((cg' = cg /\ sd' = sd) \/
     (exists k g, rest !! k = Some g /\ cg' = Some (i + k)%nat /\
                  sd' = Some (dist p g) /\ js_lt (dist p g) sd = true /\
                  forall j g', (j < k)%nat -> rest !! j = Some g' ->
                               (dist p g < dist p g')%R)).
Proof.
  induction rest as [|g0 rest IH]; intros i cg sd cg' sd' Hloop.
  - simpl in Hloop. injection Hloop as <- <-. split; [intros j g Hj; done | by left].
  - rewrite closestLoop_cons in Hloop.
    destruct (js_lt (dist p g0) sd) eqn:Hlt.
    + apply IH in Hloop as [Hall Hcase]. destruct Hcase as [[-> ->] | (k & g & Hk & -> & -> & Hg & Hbefore)].
      * split.
        -- intros [|j] g Hj; simpl in Hj.
           ++ injection Hj as <-. apply js_lt_false_Some. lra.
           ++ eauto.
        -- right. exists 0%nat, g0. repeat split; [f_equal; lia | done | intros; lia].
      * apply js_lt_true in Hg as (t & [= <-] & Hg).
        apply js_lt_true in Hlt as (t & -> & Hlt).
        split.
        -- intros [|j] g' Hj; simpl in Hj.
           ++ injection Hj as <-. apply js_lt_false_Some. lra.
           ++ eauto.
        -- right. exists (S k), g. repeat split; [done | f_equal; lia | |].
           ++ apply js_lt_true. exists t. split; [done | lra].
           ++ intros [|j] g' Hj Hg'; simpl in Hg'.
              ** injection Hg' as <-. done.
              ** apply (Hbefore j); [lia | done].
    + apply IH in Hloop as [Hall Hcase]. destruct Hcase as [[-> ->] | (k & g & Hk & -> & -> & Hg & Hbefore)].
      * split; [| by left].
        intros [|j] g Hj; simpl in Hj; [injection Hj as <-; done | eauto].
      * assert (dist p g < dist p g0)%R as Hlt0.
        { apply js_lt_true in Hg as (t & -> & Hg).
          apply js_lt_false_Some in Hlt. lra. }
        split.
        -- intros [|j] g' Hj; simpl in Hj.
           ++ injection Hj as <-. apply js_lt_false_Some. lra.
           ++ eauto.
        -- right. exists (S k), g. repeat split; [done | f_equal; lia | done |].
           intros [|j] g' Hj Hg'; simpl in Hg'.
           ++ injection Hg' as <-. done.
           ++ apply (Hbefore j); [lia | done].
Qed.

(** No group is chosen exactly when no centroid is strictly within the
    threshold. *)
Lemma closestGroup_None (p : Point) (gs : list Group) :
  closestGroup maxDistance p gs = None <->
  forall g, g ∈ gs -> js_lt (dist p g) maxDistance = false.
Proof.
  unfold closestGroup.
  destruct (closestLoop p gs 0 None maxDistance) as [cg' sd'] eqn:Hloop.
  apply closestLoop_inv in Hloop as [Hall Hcase]. simpl. split.
  - intros ->. destruct Hcase as [[_ ->] | (k & g & _ & [=] & _)].
    intros g [j Hj]%list_elem_of_lookup. eauto.
  - intros Hnone. destruct Hcase as [[-> _] | (k & g & Hk & _ & _ & Hg & _)]; [done |].
    rewrite Hnone in Hg; [done |]. apply list_elem_of_lookup. eauto.
Qed.

(** The chosen group is strictly within the threshold, no group is
    strictly closer, and every earlier group is strictly farther. *)
Lemma closestGroup_Some (p : Point) (gs : list Group) (i : nat) :
  closestGroup maxDistance p gs = Some i ->
  exists g, gs !! i = Some g /\
    js_lt (dist p g) maxDistance = true /\
    (forall g', g' ∈ gs -> (dist p g <= dist p g')%R) /\
    (forall j g', (j < i)%nat -> gs !! j = Some g' -> (dist p g < dist p g')%R).
Proof.
  unfold closestGroup.
  destruct (closestLoop p gs 0 None maxDistance) as [cg' sd'] eqn:Hloop.
  apply closestLoop_inv in Hloop as [Hall Hcase]. simpl. intros ->.
  destruct Hcase as [[[=] _] | (k & g & Hk & [= ->] & -> & Hg & Hbefore)].
  exists g. repeat split; [done | done | | done].
  intros g' [j Hj]%list_elem_of_lookup.
  apply Hall in Hj. by apply js_lt_false_Some in Hj.
Qed.

(** The merge branch computes the running mean of the specification. *)
Lemma mergedGroup_running_mean (p : Point) (centroid : LatLon) (count : nat) :
  mergedGroup p (centroid, count) = (spec_running_mean centroid count p, S count).
Proof.
  unfold mergedGroup, spec_running_mean. rewrite S_INR.
  f_equal; [f_equal; f_equal; ring | lia].
Qed.

(** The two branches of [mergeIntoClosestGroup]. *)
Lemma mergeIntoClosestGroup_new (p : Point) (gs : list Group) :
  closestGroup maxDistance p gs = None ->
  mergeIntoClosestGroup maxDistance p gs = gs ++ [(coords p, 1%nat)].
Proof. unfold mergeIntoClosestGroup. by intros ->. Qed.

Lemma mergeIntoClosestGroup_merge (p : Point) (gs : list Group) (i : nat) (g : Group) :
  closestGroup maxDistance p gs = Some i -> gs !! i = Some g ->
  mergeIntoClosestGroup maxDistance p gs = <[i := mergedGroup p g]> gs.
Proof. unfold mergeIntoClosestGroup. by intros -> ->. Qed.

Lemma forEachPoint_cons (p : Point) (ps : list Point) (gs : list Group) :
  forEachPoint maxDistance (p :: ps) gs =
  forEachPoint maxDistance ps (mergeIntoClosestGroup maxDistance p gs).
Proof. reflexivity. Qed.

(** The final [groups.map(group => [group[0], group[1]])] copies each group. *)
Lemma groupCoordinates_forEachPoint (ps : list Point) :
  groupCoordinates maxDistance ps = forEachPoint maxDistance ps [].
Proof.
  unfold groupCoordinates. simpl.
  induction (forEachPoint maxDistance ps []) as [|[c n] gs IH]; [done |].
  simpl. by rewrite IH.
Qed.

(** Each point adds one to the total of the counts. *)
Lemma totalNumberOfPoints_app (gs gs' : list Group) :
  totalNumberOfPoints (gs ++ gs') = (totalNumberOfPoints gs + totalNumberOfPoints gs')%nat.
Proof.
  unfold totalNumberOfPoints. induction gs as [|g gs IH]; simpl; [done |].
  rewrite IH. lia.
Qed.

Lemma totalNumberOfPoints_cons (g : Group) (gs : list Group) :
  totalNumberOfPoints (g :: gs) = (g.2 + totalNumberOfPoints gs)%nat.
Proof. reflexivity. Qed.

Lemma totalNumberOfPoints_insert (gs : list Group) (i : nat) (c c' : LatLon) (n : nat) :
  gs !! i = Some (c, n) ->
  totalNumberOfPoints (<[i := (c', S n)]> gs) = S (totalNumberOfPoints gs).
Proof.
  revert i. induction gs as [|g gs IH]; intros [|i] Hi; simpl in Hi; try done.
  - injection Hi as ->. reflexivity.
  - change (<[S i := (c', S n)]> (g :: gs)) with (g :: <[i := (c', S n)]> gs).
    rewrite !totalNumberOfPoints_cons, (IH i Hi). lia.
Qed.

Lemma mergeIntoClosestGroup_total (p : Point) (gs : list Group) :
  totalNumberOfPoints (mergeIntoClosestGroup maxDistance p gs) = S (totalNumberOfPoints gs).
Proof.
  destruct (closestGroup maxDistance p gs) as [i|] eqn:Hc.
  - destruct (closestGroup_Some _ _ _ Hc) as ([c n] & Hi & _).
    rewrite (mergeIntoClosestGroup_merge _ _ _ _ Hc Hi), mergedGroup_running_mean.
    by apply (totalNumberOfPoints_insert _ _ c).
  - rewrite mergeIntoClosestGroup_new by done.
    rewrite totalNumberOfPoints_app. unfold totalNumberOfPoints. simpl. lia.
Qed.

Lemma forEachPoint_total (ps : list Point) :
  forall gs, totalNumberOfPoints (forEachPoint maxDistance ps gs)
             = (totalNumberOfPoints gs + length ps)%nat.
Proof.
  induction ps as [|p ps IH]; intros gs.
  - simpl. lia.
  - rewrite forEachPoint_cons, IH, mergeIntoClosestGroup_total. simpl. lia.
Qed.

End ClustererFacts.

(** ** Values of the distance function *)

Section HaversineFacts.
Open Scope R_scope.

Lemma atan2_0_pos (x : R) : 0 < x -> atan2 0 x = 0.
Proof.
  intros Hx. unfold atan2. destruct (Rlt_dec 0 x); [| done].
  replace (0 / x) with 0 by (unfold Rdiv; ring). apply atan_0.
Qed.

Lemma atan2_pos_0 (y : R) : 0 < y -> atan2 y 0 = PI / 2.
Proof.
  intros Hy. unfold atan2.
  destruct (Rlt_dec 0 0); [lra |]. destruct (Rlt_dec 0 y); [done | lra].
Qed.

(** The haversine term [a] *)
Lemma haversineDistance_a0 (lat1 lon1 lat2 lon2 : R) :
  sin ((lat2 - lat1) * (PI / 180) / 2) = 0 ->
  sin ((lon2 - lon1) * (PI / 180) / 2) = 0 ->
  haversineDistance (lat1, lon1) (lat2, lon2) = 0.
Proof.
  intros Hlat Hlon. unfold haversineDistance. rewrite Hlat, Hlon.
  replace (0 * 0 + cos (lat1 * (PI / 180)) * cos (lat2 * (PI / 180)) * 0 * 0) with 0 by ring.
  rewrite Rminus_0_r, sqrt_0, sqrt_1, atan2_0_pos by lra. ring.
Qed.

Lemma haversineDistance_same (c : LatLon) : haversineDistance c c = 0.
Proof.
  destruct c as [lat lon]. apply haversineDistance_a0.
  - replace ((lat - lat) * (PI / 180) / 2) with 0 by lra. apply sin_0.
  - replace ((lon - lon) * (PI / 180) / 2) with 0 by lra. apply sin_0.
Qed.

Lemma haversineDistance_sym_refl_aux (a b : LatLon) :
  haversineDistance a b = haversineDistance b a /\ haversineDistance a a = 0.
Proof.
  split; [| apply haversineDistance_same].
  destruct a as [lat1 lon1], b as [lat2 lon2]. unfold haversineDistance.
  replace ((lat1 - lat2) * (PI / 180) / 2) with (- ((lat2 - lat1) * (PI / 180) / 2)) by lra.
  replace ((lon1 - lon2) * (PI / 180) / 2) with (- ((lon2 - lon1) * (PI / 180) / 2)) by lra.
  rewrite !sin_neg.
  match goal with
  | |- _ * (_ * atan2 (sqrt ?A) _) = _ * (_ * atan2 (sqrt ?B) _) =>
      replace B with A by ring
  end.
  reflexivity.
Qed.

Lemma haversineDistance_antimeridian_l : haversineDistance (0, 180) (0, -180) = 0.
Proof.
  apply haversineDistance_a0.
  - replace ((0 - 0) * (PI / 180) / 2) with 0 by lra. apply sin_0.
  - replace ((-180 - 180) * (PI / 180) / 2) with (- PI) by lra.
    rewrite sin_neg, sin_PI. lra.
Qed.

Lemma haversineDistance_antimeridian_r : haversineDistance (0, -180) (0, 180) = 0.
Proof.
  apply haversineDistance_a0.
  - replace ((0 - 0) * (PI / 180) / 2) with 0 by lra. apply sin_0.
  - replace ((180 - -180) * (PI / 180) / 2) with PI by lra. apply sin_PI.
Qed.

Lemma haversineDistance_half_turn : haversineDistance (0, 180) (0, 0) = 6371 * PI.
Proof.
  unfold haversineDistance.
  replace ((0 - 0) * (PI / 180) / 2) with 0 by lra.
  replace ((0 - 180) * (PI / 180) / 2) with (- (PI / 2)) by lra.
  replace (0 * (PI / 180)) with 0 by lra.
  rewrite sin_0, cos_0, sin_neg, sin_PI2.
  replace (0 * 0 + 1 * 1 * - (1) * - (1)) with 1 by ring.
  replace (1 - 1) with 0 by ring.
  rewrite sqrt_0, sqrt_1, atan2_pos_0 by lra. lra.
Qed.

Lemma PI_gt_3 : 3 < PI.
Proof. pose proof PI2_3_2. lra. Qed.

End HaversineFacts.

(** ** The clusterer against the specification *)

Lemma mergeIntoClosestGroup_spec_step (threshold : R) (p : Point) (gs : list Group) :
  spec_step threshold p gs (mergeIntoClosestGroup (Some threshold) p gs).
Proof.
  destruct (closestGroup (Some threshold) p gs) as [i|] eqn:Hc.
  - destruct (closestGroup_Some _ _ _ _ Hc) as ([c n] & Hi & Hlt & Hmin & _).
    rewrite (mergeIntoClosestGroup_merge _ _ _ _ _ Hc Hi), mergedGroup_running_mean.
    apply js_lt_true in Hlt as (t & [= <-] & Hlt).
    apply spec_step_merge; [done | done | intros g Hg _; by apply Hmin].
  - rewrite mergeIntoClosestGroup_new by done.
    apply spec_step_new. intros g Hg Hlt.
    apply (proj1 (closestGroup_None _ _ _) Hc) in Hg.
    apply js_lt_false_Some in Hg. lra.
Qed.

Lemma forEachPoint_spec_clusterer (threshold : R) (ps : list Point) :
  forall gs, spec_clusterer threshold ps gs (forEachPoint (Some threshold) ps gs).
Proof.
  induction ps as [|p ps IH]; intros gs.
  - apply spec_clusterer_done.
  - rewrite forEachPoint_cons.
    eapply spec_clusterer_point; [apply mergeIntoClosestGroup_spec_step | apply IH].
Qed.

(** C1: for every sequence of points and every threshold, the clusterer
    takes the points in input order and, for each, either merges it into
    a cluster whose centroid is at the smallest distance strictly below
    the threshold, replacing the centroid by the count-weighted running
    mean and adding one to the count, or, when no centroid is strictly
    within the threshold, appends a singleton cluster: the output of
    [groupCoordinates] is a run of the clusterer of the specification. *)
Theorem groupCoordinates_refines_spec (threshold : R) (coordinates : list Point) :
  spec_clusterer threshold coordinates [] (groupCoordinates (Some threshold) coordinates).
Proof.
  rewrite groupCoordinates_forEachPoint. apply forEachPoint_spec_clusterer.
Qed.

(** C2: for every list of points and every threshold the counts of the
    clusters add up to the number of points; no point gives no cluster
    and one point gives one cluster of count 1. *)
Theorem groupCoordinates_counts (maxDistance : option R) (coordinates : list Point) :
  totalNumberOfPoints (groupCoordinates maxDistance coordinates) = length coordinates
  /\ groupCoordinates maxDistance [] = []
  /\ forall p, groupCoordinates maxDistance [p] = [(coords p, 1%nat)].
Proof.
  split; [| split].
  - rewrite groupCoordinates_forEachPoint, forEachPoint_total. reflexivity.
  - reflexivity.
  - intros p. reflexivity.
Qed.

Lemma mergeIntoClosestGroup_far (threshold : R) (p : Point) (gs : list Group) :
  (forall g, g ∈ gs -> (threshold <= dist p g)%R) ->
  mergeIntoClosestGroup (Some threshold) p gs = gs ++ [(coords p, 1%nat)].
Proof.
  intros Hfar. apply mergeIntoClosestGroup_new, closestGroup_None.
  intros g Hg. apply js_lt_false_Some. by apply Hfar.
Qed.

Lemma mergeIntoClosestGroup_earliest (threshold : R) (p : Point) (gs : list Group)
    (i : nat) (g : Group) :
  gs !! i = Some g ->
  (dist p g < threshold)%R ->
  (forall g', g' ∈ gs -> (dist p g <= dist p g')%R) ->
  (forall j g', (j < i)%nat -> gs !! j = Some g' -> dist p g' <> dist p g) ->
  mergeIntoClosestGroup (Some threshold) p gs = <[i := mergedGroup p g]> gs.
Proof.
  intros Hi Hlt Hmin Hfirst.
  destruct (closestGroup (Some threshold) p gs) as [k|] eqn:Hc.
  - destruct (closestGroup_Some _ _ _ _ Hc) as (gk & Hk & _ & Hkmin & Hkbefore).
    assert (dist p gk = dist p g) as Heq.
    { apply Rle_antisym; [apply Hkmin | apply Hmin]; apply list_elem_of_lookup; eauto. }
    destruct (Nat.lt_trichotomy k i) as [Hki | [-> | Hik]].
    + exfalso. by apply (Hfirst k gk).
    + rewrite Hi in Hk. injection Hk as <-.
      by apply mergeIntoClosestGroup_merge.
    + specialize (Hkbefore i g Hik Hi). lra.
  - exfalso. pose proof (proj1 (closestGroup_None _ _ _) Hc g) as Hnone.
    rewrite js_lt_false_Some in Hnone.
    assert (g ∈ gs) as Hg by (apply list_elem_of_lookup; eauto).
    specialize (Hnone Hg). lra.
Qed.

(** C10: a point whose distance to every existing centroid is at least
    the threshold starts a new cluster, and a point with several
    centroids at the same smallest distance strictly below the threshold
    is merged into the one of lowest index. *)
Theorem mergeIntoClosestGroup_strict_earliest (threshold : R) (p : Point) (gs : list Group) :
  ((forall g, g ∈ gs -> (threshold <= dist p g)%R) ->
   mergeIntoClosestGroup (Some threshold) p gs = gs ++ [(coords p, 1%nat)])
  /\
  (forall i g,
     gs !! i = Some g ->
     (dist p g < threshold)%R ->
     (forall g', g' ∈ gs -> (dist p g <= dist p g')%R) ->
     (forall j g', (j < i)%nat -> gs !! j = Some g' -> dist p g' <> dist p g) ->
     mergeIntoClosestGroup (Some threshold) p gs = <[i := mergedGroup p g]> gs).
Proof.
  split.
  - apply mergeIntoClosestGroup_far.
  - intros i g. apply mergeIntoClosestGroup_earliest.
Qed.

Lemma dist_east_180_origin (n : nat) : dist east_180 ((0, 0)%R, n) = (6371 * PI)%R.
Proof. apply haversineDistance_half_turn. Qed.

Lemma dist_origin_origin (n : nat) : dist origin ((0, 0)%R, n) = 0%R.
Proof. apply (haversineDistance_same (0, 0)%R). Qed.

Lemma mergeIntoClosestGroup_strict_earliest_witness :
  mergeIntoClosestGroup (Some 40%R) east_180 [((0, 0)%R, 1%nat)]
    = [((0, 0)%R, 1%nat); (coords east_180, 1%nat)]
  /\
  mergeIntoClosestGroup (Some 40%R) origin [((0, 0)%R, 1%nat); ((0, 0)%R, 1%nat)]
    = [mergedGroup origin ((0, 0)%R, 1%nat); ((0, 0)%R, 1%nat)].
Proof.
  split.
  - apply (proj1 (mergeIntoClosestGroup_strict_earliest 40 east_180 [((0, 0)%R, 1%nat)])).
    intros g ->%list_elem_of_singleton.
    rewrite dist_east_180_origin. pose proof PI_gt_3. lra.
  - apply (proj2 (mergeIntoClosestGroup_strict_earliest 40 origin
                    [((0, 0)%R, 1%nat); ((0, 0)%R, 1%nat)]) 0%nat ((0, 0)%R, 1%nat)).
    + reflexivity.
    + rewrite dist_origin_origin. lra.
    + intros g' Hg'. rewrite !elem_of_cons, elem_of_nil in Hg'.
      destruct Hg' as [-> | [-> | []]]; rewrite dist_origin_origin; lra.
    + intros j g' Hj. lia.
Defined.

(** ** One cluster and the arithmetic mean *)

Lemma sumR_snoc (xs : list R) (x : R) : sumR (xs ++ [x]) = (sumR xs + x)%R.
Proof.
  unfold sumR. induction xs as [|y xs IH]; simpl; [lra | rewrite IH; lra].
Qed.

(** The running mean of a non-empty list and one more value is the mean
    of the longer list. *)
Lemma meanR_snoc (xs : list R) (x : R) :
  xs <> [] ->
  ((meanR xs * INR (length xs) + x) / (INR (length xs) + 1))%R = meanR (xs ++ [x]).
Proof.
  intros Hne. unfold meanR.
  rewrite sumR_snoc, length_app, plus_INR. simpl.
  assert (0 < INR (length xs))%R as Hpos.
  { apply lt_0_INR. destruct xs; [done | simpl; lia]. }
  field. lra.
Qed.

Lemma mergedGroup_centroidOf (pre : list Point) (q : Point) :
  pre <> [] ->
  mergedGroup q (centroidOf pre, length pre) = (centroidOf (pre ++ [q]), length (pre ++ [q])).
Proof.
  intros Hne. unfold mergedGroup, centroidOf. simpl.
  assert (forall f : Point -> R, map f pre <> []) as Hmap by (intros f; by destruct pre).
  pose proof (meanR_snoc (map latitude pre) (latitude q) (Hmap _)) as Hlat.
  pose proof (meanR_snoc (map longitude pre) (longitude q) (Hmap _)) as Hlon.
  rewrite !length_map in Hlat, Hlon.
  rewrite !map_app. simpl. rewrite Hlat, Hlon, length_app. reflexivity.
Qed.

Lemma closestGroup_only (threshold : R) (q : Point) (g : Group) :
  (dist q g < threshold)%R -> closestGroup (Some threshold) q [g] = Some 0%nat.
Proof.
  intros Hlt. unfold closestGroup. rewrite closestLoop_cons.
  replace (js_lt (dist q g) (Some threshold)) with true; [reflexivity |].
  symmetry. apply js_lt_true. eauto.
Qed.

Lemma forEachPoint_single_cluster (threshold : R) (ps : list Point) :
  forall pre : list Point,
    pre <> [] ->
    (forall k q, ps !! k = Some q ->
       (haversineDistance (coords q) (centroidOf (pre ++ take k ps)) < threshold)%R) ->
    forEachPoint (Some threshold) ps [(centroidOf pre, length pre)]
    = [(centroidOf (pre ++ ps), length (pre ++ ps))].
Proof.
  induction ps as [|q ps IH]; intros pre Hne Hnear.
  - by rewrite app_nil_r.
  - rewrite forEachPoint_cons.
    assert (dist q (centroidOf pre, length pre) < threshold)%R as Hq.
    { specialize (Hnear 0%nat q eq_refl). simpl in Hnear. by rewrite app_nil_r in Hnear. }
    rewrite (mergeIntoClosestGroup_merge _ q _ 0%nat (centroidOf pre, length pre))
      by (by apply closestGroup_only || done).
    change (<[0%nat := ?g]> [_]) with [g].
    rewrite mergedGroup_centroidOf by done.
    rewrite IH.
    + by rewrite <- app_assoc.
    + by destruct pre.
    + intros k q' Hk. rewrite <- app_assoc. apply (Hnear (S k) q' Hk).
Qed.

Lemma centroidOf_singleton (p : Point) : centroidOf [p] = coords p.
Proof.
  unfold centroidOf, meanR, sumR, coords. simpl. f_equal; field.
Qed.

(** C7, amended: one point forms one cluster, of count 1, at the point;
    two points within the threshold of each other form exactly one
    cluster, of count 2, whose centroid is the coordinate-wise arithmetic
    mean of the two.  The second point is compared with the first
    itself, the centroid of a cluster of one.  From three points on,
    being within the threshold of each other is not enough: see the
    three points below. *)
Theorem groupCoordinates_pair (threshold : R) (p q : Point) :
  groupCoordinates (Some threshold) [p] = [(coords p, 1%nat)]
  /\ ((haversineDistance (coords p) (coords q) < threshold)%R ->
      groupCoordinates (Some threshold) [p; q]
      = [((((latitude p + latitude q) / 2)%R, ((longitude p + longitude q) / 2)%R), 2%nat)]).
Proof.
  split.
  - rewrite groupCoordinates_forEachPoint, forEachPoint_cons. reflexivity.
  - intros Hnear.
    rewrite groupCoordinates_forEachPoint, !forEachPoint_cons.
    change (mergeIntoClosestGroup (Some threshold) p []) with [(coords p, 1%nat)].
    rewrite (mergeIntoClosestGroup_merge _ q _ 0%nat (coords p, 1%nat)); [| | done].
    + change (<[0%nat := ?g]> [_]) with [g].
      unfold mergedGroup, coords. simpl. f_equal. f_equal. f_equal; field.
    + apply closestGroup_only. unfold dist. simpl.
      by rewrite (proj1 (haversineDistance_sym_refl_aux (coords q) (coords p))).
Qed.

Lemma groupCoordinates_pair_witness :
  groupCoordinates (Some 40%R) [east_180; west_180]
  = [((((0 + 0) / 2)%R, ((180 + -180) / 2)%R), 2%nat)].
Proof.
  apply (proj2 (groupCoordinates_pair 40 east_180 west_180)).
  unfold coords, east_180, west_180, museumAt. simpl.
  rewrite haversineDistance_antimeridian_l. lra.
Defined.

(** C7 as stated fails: the three points below are pairwise at distance
    zero, yet averaging the longitudes 180 and -180 moves the centroid to
    longitude 0, half the globe away from the third point, which starts
    a second cluster. *)
Lemma pairwise_within_two_clusters :
  (forall p q, p ∈ [east_180; west_180; east_180_b] ->
               q ∈ [east_180; west_180; east_180_b] ->
               (haversineDistance (coords p) (coords q) < 40)%R)
  /\ groupCoordinates (Some 40%R) [east_180; west_180; east_180_b]
     = [((0, 0)%R, 2%nat); ((0, 180)%R, 1%nat)].
Proof.
  split.
  - intros p q Hp Hq. rewrite !elem_of_cons, elem_of_nil in Hp, Hq.
    destruct Hp as [-> | [-> | [-> | []]]]; destruct Hq as [-> | [-> | [-> | []]]];
      unfold coords, east_180, west_180, east_180_b, museumAt; simpl;
      rewrite ?haversineDistance_same, ?haversineDistance_antimeridian_l,
        ?haversineDistance_antimeridian_r; lra.
  - rewrite groupCoordinates_forEachPoint, !forEachPoint_cons.
    change (mergeIntoClosestGroup (Some 40%R) east_180 []) with [((0, 180)%R, 1%nat)].
    rewrite (mergeIntoClosestGroup_earliest 40 west_180 _ 0%nat ((0, 180)%R, 1%nat)).
    + change (<[0%nat := ?g]> [_]) with [g].
      replace (mergedGroup west_180 ((0, 180)%R, 1%nat)) with ((0, 0)%R, 2%nat).
      * rewrite mergeIntoClosestGroup_far; [reflexivity |].
        intros g ->%list_elem_of_singleton.
        change (dist east_180_b ((0, 0)%R, 2%nat)) with (dist east_180 ((0, 0)%R, 2%nat)).
        rewrite dist_east_180_origin. pose proof PI_gt_3. lra.
      * unfold mergedGroup, west_180, museumAt. simpl. f_equal. f_equal; field.
    + reflexivity.
    + unfold dist, coords, west_180, museumAt. simpl.
      rewrite haversineDistance_antimeridian_r. lra.
    + intros g' ->%list_elem_of_singleton. lra.
    + intros j g' Hj. lia.
Qed.

(** ** The date filter and the artifact filter *)

Lemma Js_eq_Num (a : jsnum) (z : Z) : Js.eq a (Js.Num z) = true <-> a = Js.Num z.
Proof.
  destruct a as [|x]; simpl; [split; discriminate |].
  rewrite Z.eqb_eq. split; [by intros -> | by intros [= ->]].
Qed.

Lemma elem_of_List_filter {A : Type} (f : A -> bool) (l : list A) (x : A) :
  x ∈ List.filter f l <-> x ∈ l /\ f x = true.
Proof. rewrite !list_elem_of_In. apply filter_In. Qed.

(** The predicate of the date filter, on integers. *)
Lemma openAt_true (date : jsnum) (d : Point) :
  openAt date d = true <->
  exists D lo, date = Js.Num D /\ year_opened_low d = Js.Num lo /\ (lo <= D)%Z /\
    (year_closed_low d = Js.NaN \/
     exists c, year_closed_low d = Js.Num c /\ (D < c)%Z).
Proof.
  unfold openAt. rewrite andb_true_iff, orb_true_iff.
  destruct date as [|D], (year_opened_low d) as [|lo], (year_closed_low d) as [|c]; simpl;
    try (split; [intros [? _]; discriminate | intros (? & ? & ? & ? & _); discriminate]).
  - rewrite Z.leb_le. split.
    + intros [Hlo _]. exists D, lo. eauto.
    + intros (? & ? & [= <-] & [= <-] & ? & _). eauto.
  - rewrite Z.leb_le, Z.ltb_lt. split.
    + intros [Hlo [Hc | ?]]; [| done]. exists D, lo. repeat split; eauto.
    + intros (? & ? & [= <-] & [= <-] & ? & [? | (? & [= <-] & ?)]); [done | eauto].
Qed.

(** What [filterOnDate] does on a map that has a filtered subset. *)
Lemma filterOnDate_defined (date : jsnum) (pg : Page) (rows : list Point) :
  filteredData (mapRegions pg) = Some rows ->
  filterOnDate date pg =
  (Return tt,
   set_lineChart (filterLineChartData rows)
     (set_map (updatePoints (List.filter (openAt date) rows) (mapRegions pg)) pg)).
Proof.
  intros Hrows.
  unfold filterOnDate, try_catch, filterOnDate_body, the_array, gets, modify,
    mbind, M_bind, mret, M_ret.
  rewrite Hrows. reflexivity.
Qed.

(** C4, amended: the date filter keeps a point iff its yearOpenedLow is at
    most the reference date D and its yearClosedLow is greater than D or
    NaN; a NaN closing year counts as still open, so a point with
    yearOpenedLow at most 2000 and yearClosedLow NaN is kept for every
    reference date from 2000 on. *)
Theorem filterOnDate_keeps (date : jsnum) (rows : list Point) (d : Point) :
  (d ∈ List.filter (openAt date) rows <->
   d ∈ rows /\
   exists D lo, date = Js.Num D /\ year_opened_low d = Js.Num lo /\ (lo <= D)%Z /\
     (year_closed_low d = Js.NaN \/
      exists c, year_closed_low d = Js.Num c /\ (D < c)%Z))
  /\
  (forall lo D,
     d ∈ rows -> year_opened_low d = Js.Num lo -> (lo <= 2000)%Z ->
     year_closed_low d = Js.NaN -> (2000 <= D)%Z ->
     d ∈ List.filter (openAt (Js.Num D)) rows).
Proof.
  split.
  - by rewrite elem_of_List_filter, openAt_true.
  - intros lo D Hd Hlo Hle Hc HD. apply elem_of_List_filter. split; [done |].
    apply openAt_true. exists D, lo. repeat split; [done | lia | by left].
Qed.

Lemma filterOnDate_keeps_witness :
  (opened_1990_2000 ∈ List.filter (openAt (Js.Num 2024)) [closed_2017; opened_1990_2000]).
Proof.
  apply (proj2 (filterOnDate_keeps (Js.Num 2024) [closed_2017; opened_1990_2000]
                  opened_1990_2000) 1990%Z 2024%Z).
  - apply list_elem_of_further, list_elem_of_here.
  - reflexivity.
  - lia.
  - reflexivity.
  - lia.
Defined.

(** C4 as stated fails: the filter reads yearOpenedLow only.  A point
    with yearOpenedHigh 2000 and yearClosedLow NaN is dropped at the
    reference date 2005 when its yearOpenedLow is 2010, and a point
    opened between 1990 and 2000 is kept at 1995, before its
    yearOpenedHigh. *)
Lemma openAt_ignores_opened_high :
  (year_opened_high reversed_range = Js.Num 2000
   /\ year_closed_low reversed_range = Js.NaN
   /\ List.filter (openAt (Js.Num 2005)) [reversed_range] = [])
  /\
  (year_opened_high opened_1990_2000 = Js.Num 2000
   /\ List.filter (openAt (Js.Num 1995)) [opened_1990_2000] = [opened_1990_2000]).
Proof. repeat split. Qed.

(** C5, amended: the artifact filter removes exactly the points whose
    yearOpenedLow is 1945 or 1960 and whose yearOpenedHigh is 2017; the
    date filter hands the line chart the rows so reduced and hands the
    map the date-filtered rows with no such removal. *)
Theorem filterLineChartData_removes (rows : list Point) (d : Point) :
  (d ∈ filterLineChartData rows <->
   d ∈ rows /\
   ~ ((year_opened_low d = Js.Num 1945 \/ year_opened_low d = Js.Num 1960)
      /\ year_opened_high d = Js.Num 2017))
  /\
  (forall date pg,
     filteredData (mapRegions pg) = Some rows ->
     lineChart (exec (filterOnDate date) pg) = Some (filterLineChartData rows)
     /\ circles (mapRegions (exec (filterOnDate date) pg))
        = groupCoordinates (groupRadius (mapRegions pg)) (List.filter (openAt date) rows)).
Proof.
  split.
  - unfold filterLineChartData. rewrite elem_of_List_filter.
    rewrite negb_true_iff, <- not_true_iff_false, andb_true_iff, orb_true_iff.
    by rewrite !Js_eq_Num.
  - intros date pg Hrows. unfold exec.
    rewrite (filterOnDate_defined _ _ _ Hrows). simpl. done.
Qed.

Lemma filterLineChartData_removes_witness :
  lineChart (exec (filterOnDate (Js.Num 2000)) (startPage ["England"] [opened_1945_2017] (Js.Num 1945)))
    = Some []
  /\ circles (mapRegions (exec (filterOnDate (Js.Num 2000))
                            (startPage ["England"] [opened_1945_2017] (Js.Num 1945))))
    = [(coords opened_1945_2017, 1%nat)].
Proof.
  apply (proj2 (filterLineChartData_removes [opened_1945_2017] opened_1945_2017)
           (Js.Num 2000) (startPage ["England"] [opened_1945_2017] (Js.Num 1945))).
  reflexivity.
Defined.

(** C5 as stated fails: a point opened between 1945 and 1950 and closed
    in 2017 stays in the line-chart rows, and a point with the opening
    range 1945 to 2017 and no closing year is removed. *)
Lemma filterLineChartData_reads_opened_high :
  (year_opened_low closed_2017 = Js.Num 1945
   /\ year_closed_low closed_2017 = Js.Num 2017
   /\ year_closed_low opened_1945_2017 = Js.NaN)
  /\ filterLineChartData [closed_2017; opened_1945_2017] = [closed_2017].
Proof. repeat split. Qed.

(** ** The region toggle *)

Lemma toggleRegion_miss (m : MapState) (i : nat) :
  regionPaths m !! i = None -> toggleRegion i m = m.
Proof. unfold toggleRegion. by intros ->. Qed.

(** A click on a highlighted path removes its name; a click on a dimmed
    path adds it. *)
Lemma toggleRegion_hit (m : MapState) (i : nat) (r : RegionPath) :
  regionPaths m !! i = Some r ->
  regionPaths (toggleRegion i m)
    = <[i := mkRegionPath (name r) (negb (data_highlighted r))]> (regionPaths m)
  /\ selectedRegions (toggleRegion i m)
    = (if data_highlighted r then selectedRegions m ∖ {[name r]}
       else {[name r]} ∪ selectedRegions m).
Proof.
  unfold toggleRegion. intros ->. by destruct (data_highlighted r).
Qed.

Lemma toggleRegion_names (m : MapState) (i : nat) :
  map name (regionPaths (toggleRegion i m)) = map name (regionPaths m).
Proof.
  destruct (regionPaths m !! i) as [r|] eqn:Hi.
  - destruct (toggleRegion_hit m i r Hi) as [-> _].
    rewrite list_fmap_insert. simpl. apply list_insert_id.
    by rewrite list_lookup_fmap, Hi.
  - by rewrite toggleRegion_miss.
Qed.

(** With the flag and the selection in agreement, two clicks on one path
    give the selection back. *)
Lemma toggleRegion_twice_agree (m : MapState) (i : nat) :
  flagAgrees m i ->
  selectedRegions (toggleRegion i (toggleRegion i m)) = selectedRegions m.
Proof.
  intros Hagree. destruct (regionPaths m !! i) as [r|] eqn:Hi.
  - destruct (toggleRegion_hit m i r Hi) as [Hpaths Hsel].
    assert (regionPaths (toggleRegion i m) !! i
            = Some (mkRegionPath (name r) (negb (data_highlighted r)))) as Hi'.
    { rewrite Hpaths. apply list_lookup_insert_eq. by eapply lookup_lt_Some. }
    destruct (toggleRegion_hit _ i _ Hi') as [_ ->]. rewrite Hsel. simpl.
    specialize (Hagree r Hi).
    destruct (data_highlighted r); simpl.
    + assert (name r ∈ selectedRegions m) as Hin by (by apply Hagree).
      apply set_eq. intros x.
      rewrite elem_of_union, elem_of_difference, elem_of_singleton.
      destruct (decide (x = name r)) as [-> | Hne]; tauto.
    + assert (name r ∉ selectedRegions m) as Hout by (intros Hin; by apply Hagree in Hin).
      apply set_eq. intros x.
      rewrite elem_of_difference, elem_of_union, elem_of_singleton.
      split; [tauto | intros Hx; split; [tauto | by intros ->]].
  - by rewrite (toggleRegion_miss m i Hi), (toggleRegion_miss m i Hi).
Qed.

(** [#renderMap] leaves every flag in agreement with the selection. *)
Lemma baseMap_agree (names : list string) (m : MapState) (j : nat) :
  flagAgrees (baseMap names m) j.
Proof.
  intros r Hj. simpl in Hj. rewrite list_lookup_fmap in Hj.
  destruct (names !! j) as [n|] eqn:Hn; [| done].
  injection Hj as <-. simpl. split; [| done].
  intros _. apply elem_of_list_to_set, list_elem_of_lookup. eauto.
Qed.

(** A click keeps the agreement at every path when no two paths share a
    name. *)
Lemma toggleRegion_agree (m : MapState) (i : nat) :
  NoDup (map name (regionPaths m)) ->
  (forall j, flagAgrees m j) ->
  forall j, flagAgrees (toggleRegion i m) j.
Proof.
  intros Hnodup Hall j.
  destruct (regionPaths m !! i) as [r|] eqn:Hi; [| by rewrite toggleRegion_miss].
  destruct (toggleRegion_hit m i r Hi) as [Hpaths Hsel].
  intros r' Hj. rewrite Hpaths in Hj. rewrite Hsel.
  destruct (decide (i = j)) as [<- | Hne].
  - rewrite list_lookup_insert_eq in Hj by (by eapply lookup_lt_Some).
    injection Hj as <-. simpl.
    destruct (data_highlighted r); simpl;
      rewrite ?elem_of_difference, ?elem_of_union, !elem_of_singleton;
      split; try done; tauto.
  - rewrite list_lookup_insert_ne in Hj by done.
    assert (name r' <> name r) as Hnames.
    { intros Heq. apply Hne.
      eapply (NoDup_lookup _ i j (name r) Hnodup).
      - by rewrite list_lookup_fmap, Hi.
      - rewrite list_lookup_fmap, Hj. simpl. by rewrite Heq. }
    rewrite (Hall j r' Hj).
    destruct (data_highlighted r);
      rewrite ?elem_of_difference, ?elem_of_union, !elem_of_singleton; tauto.
Qed.

Lemma toggles_agree (clicks : list nat) :
  forall m,
    NoDup (map name (regionPaths m)) ->
    (forall j, flagAgrees m j) ->
    forall j, flagAgrees (toggles clicks m) j.
Proof.
  induction clicks as [|i clicks IH]; intros m Hnodup Hall; [done |].
  simpl. apply IH.
  - by rewrite toggleRegion_names.
  - by apply toggleRegion_agree.
Qed.

Lemma baseMap_names (names : list string) (m : MapState) :
  map name (regionPaths (baseMap names m)) = names.
Proof.
  simpl. rewrite <- list_fmap_compose. simpl. apply list_fmap_id.
Qed.

(** C8, amended: on a map whose regions have pairwise distinct names,
    after any sequence of clicks, a click on a region removes its name
    from the active set if present and adds it if absent, and two clicks
    in succession on one region restore the active set. *)
Theorem toggleRegion_twice (names : list string) (clicks : list nat) (i : nat) :
  NoDup names ->
  selectedRegions (toggleRegion i (toggleRegion i (toggles clicks (baseMap names newMap))))
    = selectedRegions (toggles clicks (baseMap names newMap))
  /\
  (forall r,
     regionPaths (toggles clicks (baseMap names newMap)) !! i = Some r ->
     selectedRegions (toggleRegion i (toggles clicks (baseMap names newMap)))
     = if decide (name r ∈ selectedRegions (toggles clicks (baseMap names newMap)))
       then selectedRegions (toggles clicks (baseMap names newMap)) ∖ {[name r]}
       else {[name r]} ∪ selectedRegions (toggles clicks (baseMap names newMap))).
Proof.
  intros Hnodup.
  assert (forall j, flagAgrees (toggles clicks (baseMap names newMap)) j) as Hall.
  { apply toggles_agree; [by rewrite baseMap_names | apply baseMap_agree]. }
  split.
  - apply toggleRegion_twice_agree, Hall.
  - intros r Hi. destruct (toggleRegion_hit _ i r Hi) as [_ ->].
    specialize (Hall i r Hi).
    destruct (data_highlighted r); case_decide; try done.
    + exfalso. tauto.
    + exfalso. assert (false = true) by tauto. done.
Qed.

Lemma toggleRegion_twice_witness :
  selectedRegions
    (toggleRegion 1 (toggleRegion 1 (toggles [0; 1; 0]%nat (baseMap ["England"; "Wales"] newMap))))
  = selectedRegions (toggles [0; 1; 0]%nat (baseMap ["England"; "Wales"] newMap)).
Proof.
  apply (proj1 (toggleRegion_twice ["England"; "Wales"] [0; 1; 0]%nat 1%nat
                  ltac:(apply NoDup_cons; split;
                        [rewrite list_elem_of_singleton; discriminate
                        | apply NoDup_singleton]))).
Defined.

(** C8 as stated fails when two regions share a name: after a click on
    the first of two paths named Wales the active set is empty while the
    second path is still highlighted; the first click on the second path
    finds the name absent and adds nothing, the second click adds it, so
    two clicks turn the empty set into the set holding Wales. *)
Lemma toggleRegion_shared_name :
  selectedRegions (toggles [0%nat] (baseMap ["Wales"; "Wales"] newMap)) = ∅
  /\ selectedRegions
       (toggleRegion 1 (toggles [0%nat] (baseMap ["Wales"; "Wales"] newMap))) = ∅
  /\ selectedRegions
       (toggleRegion 1 (toggleRegion 1 (toggles [0%nat] (baseMap ["Wales"; "Wales"] newMap))))
     = {["Wales"]}
  /\ selectedRegions
       (toggleRegion 1 (toggleRegion 1 (toggles [0%nat] (baseMap ["Wales"; "Wales"] newMap))))
     <> selectedRegions (toggles [0%nat] (baseMap ["Wales"; "Wales"] newMap)).
Proof.
  repeat split; try (vm_compute; reflexivity).
  vm_compute. discriminate.
Qed.

(** ** The filter propagation chain *)

(** What [filterOnDate] does on a map without a filtered subset. *)
Lemma filterOnDate_undefined (date : jsnum) (pg : Page) :
  filteredData (mapRegions pg) = None ->
  filterOnDate_body date pg = (Throw (TypeError "filter"), pg)
  /\ filterOnDate date pg
     = (Return tt, mkPage (mapRegions pg) (lineChart pg) (slider_currentValue pg)
                     (TypeError "filter" :: console pg)).
Proof.
  intros Hnone.
  unfold filterOnDate, try_catch, filterOnDate_body, the_array, gets, modify,
    mbind, M_bind, mret, M_ret, throw.
  rewrite Hnone. done.
Qed.

(** [filterOnDate] never ends abruptly. *)
Lemma filterOnDate_returns (date : jsnum) (pg : Page) :
  (filterOnDate date pg).1 = Return tt.
Proof.
  destruct (filteredData (mapRegions pg)) as [rows|] eqn:Hrows.
  - by rewrite (filterOnDate_defined _ _ _ Hrows).
  - by rewrite (proj2 (filterOnDate_undefined _ _ Hrows)).
Qed.

(** What [filterOnRegion] does on a map that has a dataset. *)
Lemma filterOnRegion_defined (selected : gset string) (pg : Page) (rows : list Point) :
  data (mapRegions pg) = Some rows ->
  filterOnRegion selected pg =
  filterOnDate (slider_currentValue pg)
    (set_map (set_filteredData
                (List.filter (fun d => bool_decide (region d ∈ selected)) rows)
                (mapRegions pg)) pg).
Proof.
  intros Hrows.
  unfold filterOnRegion, try_catch, filterOnRegion_body, mapRegionsFilterOnDate,
    the_array, gets, modify, mbind, M_bind, mret, M_ret.
  rewrite Hrows.
  rewrite (filterOnDate_defined (slider_currentValue pg)
             (set_map (set_filteredData
                         (List.filter (fun d => bool_decide (region d ∈ selected)) rows)
                         (mapRegions pg)) pg)
             (List.filter (fun d => bool_decide (region d ∈ selected)) rows) eq_refl).
  reflexivity.
Qed.

(** What [filterOnRegion] does on a map without a dataset. *)
Lemma filterOnRegion_undefined (selected : gset string) (pg : Page) :
  data (mapRegions pg) = None ->
  filterOnRegion_body selected pg = (Throw (TypeError "filter"), pg)
  /\ filterOnRegion selected pg
     = (Return tt, mkPage (mapRegions pg) (lineChart pg) (slider_currentValue pg)
                     (TypeError "filter" :: console pg)).
Proof.
  intros Hnone.
  unfold filterOnRegion, try_catch, filterOnRegion_body, the_array, gets, modify,
    mbind, M_bind, mret, M_ret, throw.
  rewrite Hnone. done.
Qed.

(** C3, amended: a region toggle recomputes the region-filtered subset
    from the full dataset and applies the date filter at the slider's
    current value to the new subset; a slider change, by drag or by a
    tick of the animation, applies the date filter to the cached
    region-filtered subset and leaves that subset and the full dataset
    alone.  In every case the date-filtered rows go
    to the clusterer and renderer, while the time-series aggregation
    receives the region-filtered subset, less the artifact rows, and not
    the date-filtered rows. *)
Theorem filter_chain (pg : Page) :
  (forall i rows,
     data (mapRegions pg) = Some rows ->
     (regionToggled i pg).1 = Return tt
     /\ data (mapRegions (exec (regionToggled i) pg)) = Some rows
     /\ filteredData (mapRegions (exec (regionToggled i) pg))
        = Some (List.filter
                  (fun d => bool_decide
                              (region d ∈ selectedRegions (toggleRegion i (mapRegions pg))))
                  rows)
     /\ circles (mapRegions (exec (regionToggled i) pg))
        = groupCoordinates (groupRadius (mapRegions pg))
            (List.filter (openAt (slider_currentValue pg))
               (List.filter
                  (fun d => bool_decide
                              (region d ∈ selectedRegions (toggleRegion i (mapRegions pg))))
                  rows))
     /\ lineChart (exec (regionToggled i) pg)
        = Some (filterLineChartData
                  (List.filter
                     (fun d => bool_decide
                                 (region d ∈ selectedRegions (toggleRegion i (mapRegions pg))))
                     rows)))
  /\
  (forall value rows,
     filteredData (mapRegions pg) = Some rows ->
     (dateChanged value pg).1 = Return tt
     /\ data (mapRegions (exec (dateChanged value) pg)) = data (mapRegions pg)
     /\ filteredData (mapRegions (exec (dateChanged value) pg)) = Some rows
     /\ circles (mapRegions (exec (dateChanged value) pg))
        = groupCoordinates (groupRadius (mapRegions pg)) (List.filter (openAt value) rows)
     /\ lineChart (exec (dateChanged value) pg) = Some (filterLineChartData rows))
  /\
  (forall value rows,
     filteredData (mapRegions pg) = Some rows ->
     (playTick value pg).1 = Return tt
     /\ data (mapRegions (exec (playTick value) pg)) = data (mapRegions pg)
     /\ filteredData (mapRegions (exec (playTick value) pg)) = Some rows
     /\ circles (mapRegions (exec (playTick value) pg))
        = groupCoordinates (groupRadius (mapRegions pg))
            (List.filter (openAt (slider_currentValue pg)) rows)
     /\ lineChart (exec (playTick value) pg) = Some (filterLineChartData rows)).
Proof.
  split.
  - intros i rows Hrows.
    assert (data (toggleRegion i (mapRegions pg)) = Some rows
            /\ groupRadius (toggleRegion i (mapRegions pg)) = groupRadius (mapRegions pg))
      as [Hdata Hradius].
    { unfold toggleRegion. destruct (regionPaths (mapRegions pg) !! i) as [r|]; [| done].
      by destruct (data_highlighted r). }
    unfold exec, regionToggled, modify, gets, mbind, M_bind. simpl.
    rewrite (filterOnRegion_defined _ _ rows) by done.
    erewrite filterOnDate_defined; [| reflexivity]. simpl.
    rewrite Hdata, Hradius. done.
  - split; intros value rows Hrows.
    + unfold exec, dateChanged, sliderCallback, mapRegionsFilterOnDate, modify, gets,
        mbind, M_bind. simpl.
      rewrite (filterOnDate_defined _ _ rows) by done. simpl.
      rewrite Hrows. done.
    + unfold exec, playTick, sliderCallback, mapRegionsFilterOnDate, modify, gets,
        mbind, M_bind. simpl.
      rewrite (filterOnDate_defined _ _ rows) by done. simpl.
      rewrite Hrows. done.
Qed.


Lemma filter_chain_witness :
  filteredData (mapRegions (exec (regionToggled 0) (startPage ["England"] [origin] (Js.Num 1990))))
    = Some []
  /\ circles (mapRegions (exec (dateChanged (Js.Num 2000))
                            (startPage ["England"] [origin] (Js.Num 1990))))
     = [(coords origin, 1%nat)].
Proof.
  split.
  - apply (proj1 (filter_chain (startPage ["England"] [origin] (Js.Num 1990)))
             0%nat [origin] eq_refl).
  - apply (proj1 (proj2 (filter_chain (startPage ["England"] [origin] (Js.Num 1990))))
             (Js.Num 2000) [origin] eq_refl).
Defined.

(** C3 as stated fails: the time-series aggregation does not receive
    the date-filtered rows.  With one museum opened in 1990 and the
    slider moved to 1800, the date filter keeps no row and the map shows
    no circle, yet the line chart is drawn from the museum's row. *)
Lemma dateChanged_lineChart_unfiltered :
  List.filter (openAt (Js.Num 1800)) [origin] = []
  /\ circles (mapRegions (exec (dateChanged (Js.Num 1800))
                            (startPage ["England"] [origin] (Js.Num 1990)))) = []
  /\ lineChart (exec (dateChanged (Js.Num 1800))
                  (startPage ["England"] [origin] (Js.Num 1990))) = Some [origin]
  /\ lineChart (exec (dateChanged (Js.Num 1800))
                  (startPage ["England"] [origin] (Js.Num 1990)))
     <> Some (filterLineChartData (List.filter (openAt (Js.Num 1800)) [origin])).
Proof. repeat split. discriminate. Qed.

(** ** Exceptions in the filters *)

(** With the rendering calls that complete, the filters are those of
    the sections above. *)
Lemma filterOnDate_with_complete (date : jsnum) (pg : Page) :
  filterOnDate_with bindGroups handRows date pg = filterOnDate date pg.
Proof.
  unfold filterOnDate_with, filterOnDate, try_catch, filterOnDate_body_with,
    filterOnDate_body, updatePoints_with, the_array, gets, bindGroups, handRows, modify,
    mbind, M_bind, mret, M_ret.
  by destruct (filteredData (mapRegions pg)).
Qed.

Lemma filterOnRegion_with_complete (selected : gset string) (pg : Page) :
  filterOnRegion_with bindGroups handRows selected pg = filterOnRegion selected pg.
Proof.
  unfold filterOnRegion_with, filterOnRegion, try_catch, filterOnRegion_body_with,
    filterOnRegion_body, mapRegionsFilterOnDate, the_array, gets, modify,
    mbind, M_bind, mret, M_ret.
  destruct (data (mapRegions pg)); [| done].
  by rewrite filterOnDate_with_complete.
Qed.

Lemma bindGroups_rendering (groupedData : list Group) : rendering (bindGroups groupedData).
Proof. by intros pg. Qed.



Section RenderersFacts.
Variable join : list Group -> M unit.
Variable render : list Point -> M unit.
Hypothesis join_rendering : forall groupedData, rendering (join groupedData).
Hypothesis render_rendering : forall rows, rendering (render rows).


End RenderersFacts.



(** ** The point-size scale *)

(** Every group holds at least one point. *)
Lemma mergeIntoClosestGroup_counts_pos (maxDistance : option R) (p : Point) (gs : list Group) :
  Forall (fun g => (1 <= g.2)%nat) gs ->
  Forall (fun g => (1 <= g.2)%nat) (mergeIntoClosestGroup maxDistance p gs).
Proof.
  intros Hpos. unfold mergeIntoClosestGroup.
  destruct (closestGroup maxDistance p gs) as [i|].
  - destruct (gs !! i) as [[c n]|] eqn:Hi; [| done].
    apply Forall_insert; [done |]. simpl. lia.
  - apply Forall_app. split; [done |]. by apply Forall_singleton.
Qed.

Lemma forEachPoint_counts_pos (maxDistance : option R) (ps : list Point) :
  forall gs,
    Forall (fun g => (1 <= g.2)%nat) gs ->
    Forall (fun g => (1 <= g.2)%nat) (forEachPoint maxDistance ps gs).
Proof.
  induction ps as [|p ps IH]; intros gs Hpos; [done |].
  rewrite forEachPoint_cons. by apply IH, mergeIntoClosestGroup_counts_pos.
Qed.

(** A non-empty dataset has a largest count, and it is positive. *)
Lemma d3_max_groupCoordinates (maxDistance : option R) (dataset : list Point) :
  dataset <> [] ->
  exists max, d3_max (map snd (groupCoordinates maxDistance dataset)) = Some (S max).
Proof.
  intros Hne.
  pose proof (forEachPoint_total maxDistance dataset []) as Htotal.
  assert (Forall (fun g : Group => (1 <= g.2)%nat) (forEachPoint maxDistance dataset []))
    as Hpos by (apply forEachPoint_counts_pos; constructor).
  rewrite groupCoordinates_forEachPoint.
  set (groups := forEachPoint maxDistance dataset []) in *. clearbody groups.
  destruct groups as [|[c n] gs].
  - destruct dataset; [done | discriminate].
  - apply Forall_cons in Hpos as [Hn _]. simpl in Hn. simpl.
    exists (Nat.pred (foldr Nat.max n (map snd gs))).
    f_equal. assert (n <= foldr Nat.max n (map snd gs))%nat; [| lia].
    clear. induction gs as [|g gs IH]; simpl; lia.
Qed.

(** The scale at zero, at the largest count, and in between. *)
Lemma applyScale_sqrt (max : nat) (radius : R) :
  applyScale (scaleSqrt (Some (S max)) (Some radius)) 0 = Some 0%R
  /\ applyScale (scaleSqrt (Some (S max)) (Some radius)) (S max) = Some radius
  /\ forall count,
       applyScale (scaleSqrt (Some (S max)) (Some radius)) count
       = Some (radius * sqrt (INR count / INR (S max)))%R.
Proof.
  assert (0 < INR (S max))%R as Hpos by (apply lt_0_INR; lia).
  pose proof (sqrt_lt_R0 _ Hpos) as Hsqrt.
  unfold applyScale. simpl domainMax. simpl rangeMax. repeat split.
  - f_equal. change (INR 0) with 0%R. rewrite sqrt_0. unfold Rdiv. ring.
  - f_equal. field. lra.
  - intros count. f_equal. f_equal. symmetry. by apply sqrt_div_alt.
Qed.

(** C6, amended: [renderGroupedPoints] sets the scale from the clusters
    of the dataset it is given and from the configured maximum radius
    (15 when none is given); that scale maps a count to a radius by a
    square-root relationship, count 0 to radius 0 and the largest count
    of those clusters to the maximum radius; [updatePoints] renders a new
    point set with the scale left as it was. *)
Theorem renderGroupedPoints_scale (dataset : list Point) (maxRadius' groupRadius' : option R)
    (m : MapState) :
  (dataset <> [] ->
   exists max scale,
     pointScale (renderGroupedPoints dataset maxRadius' groupRadius' m) = Some scale
     /\ d3_max (map snd (circles (renderGroupedPoints dataset maxRadius' groupRadius' m)))
        = Some max
     /\ applyScale scale 0 = Some 0%R
     /\ applyScale scale max = Some (default 15%R maxRadius')
     /\ forall count,
          applyScale scale count
          = Some (default 15%R maxRadius' * sqrt (INR count / INR max))%R)
  /\
  (forall newData,
     pointScale (updatePoints newData (renderGroupedPoints dataset maxRadius' groupRadius' m))
     = pointScale (renderGroupedPoints dataset maxRadius' groupRadius' m)).
Proof.
  split; [| done].
  intros Hne.
  destruct (d3_max_groupCoordinates (Some (default 40%R groupRadius')) dataset Hne)
    as [max Hmax].
  exists (S max), (scaleSqrt (Some (S max)) (Some (default 15%R maxRadius'))).
  split; [| split; [| apply applyScale_sqrt]].
  - unfold renderGroupedPoints, renderGroupedPoints_private, createSqrtScale. simpl.
    by rewrite Hmax.
  - exact Hmax.
Qed.

Lemma groupCoordinates_origin_twice :
  map snd (groupCoordinates (Some 40%R) [origin; origin]) = [2%nat].
Proof.
  rewrite groupCoordinates_forEachPoint, forEachPoint_cons.
  change (mergeIntoClosestGroup (Some 40%R) origin []) with [(coords origin, length [origin])].
  rewrite <- centroidOf_singleton.
  rewrite (forEachPoint_single_cluster 40 [origin] [origin]); [done | done |].
  intros [|k] q Hq; [| done].
  injection Hq as <-. simpl. rewrite centroidOf_singleton.
  rewrite haversineDistance_same. lra.
Qed.

Lemma renderGroupedPoints_scale_witness :
  exists max scale,
    pointScale (renderGroupedPoints [origin; origin] None None newMap) = Some scale
    /\ d3_max (map snd (circles (renderGroupedPoints [origin; origin] None None newMap)))
       = Some max
    /\ applyScale scale 0 = Some 0%R
    /\ applyScale scale max = Some 15%R
    /\ forall count, applyScale scale count = Some (15 * sqrt (INR count / INR max))%R.
Proof.
  apply (proj1 (renderGroupedPoints_scale [origin; origin] None None newMap)).
  discriminate.
Defined.

(** C6 as stated fails: the scale is not recomputed when a new point set
    is rendered.  After two museums at one place are rendered and the
    points are updated to one of them, the only cluster has count 1 while
    the scale still has the domain bound 2, so the largest count of the
    current clusters maps to 15 / sqrt 2 and not to the maximum radius. *)
Lemma updatePoints_keeps_scale :
  circles (updatePoints [origin] (renderGroupedPoints [origin; origin] None None newMap))
    = [(coords origin, 1%nat)]
  /\ pointScale (updatePoints [origin] (renderGroupedPoints [origin; origin] None None newMap))
     = Some (scaleSqrt (Some 2%nat) (Some 15%R))
  /\ applyScale (scaleSqrt (Some 2%nat) (Some 15%R)) 1 <> Some 15%R.
Proof.
  split; [reflexivity | split].
  - unfold updatePoints, renderGroupedPoints, renderGroupedPoints_private, createSqrtScale.
    simpl. by rewrite groupCoordinates_origin_twice.
  - unfold applyScale. simpl. intros [= Heq].
    rewrite sqrt_1 in Heq.
    assert (sqrt (1 + 1) * sqrt (1 + 1) = 1 + 1)%R as Hsq by (apply sqrt_sqrt; lra).
    assert (sqrt (1 + 1) <> 0)%R as Hnz by nra.
    assert (1 / sqrt (1 + 1) * sqrt (1 + 1) = 1)%R as Hinv by (field; done).
    revert Heq Hsq Hinv. generalize (sqrt (1 + 1)).
    intros s Heq Hsq Hinv.
    assert (1 / s = 1)%R as Hone by lra.
    rewrite Hone in Hinv.
    assert (s = 1)%R as -> by lra. lra.
Qed.

(** * Further properties of the code *)

(** ** The distance function *)

Section DistanceFacts.
Open Scope R_scope.

Lemma atan2_quadrant (y x : R) : 0 <= y -> 0 <= x -> 0 <= atan2 y x <= PI / 2.
Proof.
  intros Hy Hx. pose proof PI2_RGT_0 as Hpi. unfold atan2.
  destruct (Rlt_dec 0 x) as [Hpos | Hnpos].
  - pose proof (atan_bound (y / x)) as [_ Hub].
    split; [| lra].
    destruct (Rle_lt_or_eq_dec 0 y Hy) as [Hypos | <-].
    + rewrite <- atan_0. left. apply atan_increasing.
      by apply Rdiv_lt_0_compat.
    + replace (0 / x) with 0 by (unfold Rdiv; ring). rewrite atan_0. lra.
  - destruct (Rlt_dec x 0); [lra |].
    destruct (Rlt_dec 0 y); [lra |].
    destruct (Rlt_dec y 0); lra.
Qed.

(** X1: the distance does not depend on the order of its two arguments,
    and it is zero between a place and itself. *)
Theorem haversineDistance_sym_refl (a b : LatLon) :
  haversineDistance a b = haversineDistance b a /\ haversineDistance a a = 0.
Proof. apply haversineDistance_sym_refl_aux. Qed.

Lemma haversineDistance_bounds (a b : LatLon) :
  0 <= haversineDistance a b <= 6371 * PI.
Proof.
  destruct a as [lat1 lon1], b as [lat2 lon2]. unfold haversineDistance.
  match goal with
  | |- _ <= _ * (_ * atan2 (sqrt ?A) (sqrt ?B)) <= _ =>
      pose proof (atan2_quadrant (sqrt A) (sqrt B) (sqrt_pos A) (sqrt_pos B)) as [Hlo Hhi]
  end.
  split; lra.
Qed.

End DistanceFacts.

(** ** More on the clusterer *)

Lemma forEachPoint_app (maxDistance : option R) (ps qs : list Point) (gs : list Group) :
  forEachPoint maxDistance (ps ++ qs) gs
  = forEachPoint maxDistance qs (forEachPoint maxDistance ps gs).
Proof. unfold forEachPoint. apply fold_left_app. Qed.

(** With no comparison ever true, every point opens a group. *)
Lemma forEachPoint_no_merge (maxDistance : option R) (ps : list Point) :
  (forall p g, js_lt (dist p g) maxDistance = false) ->
  forall gs, forEachPoint maxDistance ps gs = gs ++ map singletonGroup ps.
Proof.
  intros Hnever. induction ps as [|p ps IH]; intros gs.
  - by rewrite app_nil_r.
  - rewrite forEachPoint_cons, mergeIntoClosestGroup_new, IH.
    + by rewrite <- app_assoc.
    + apply closestGroup_None. intros g _. apply Hnever.
Qed.

(** X3: with a threshold of zero or below, and with a threshold left
    undefined, nothing is merged: the clusters are the points themselves,
    in input order, each with count 1. *)
Theorem groupCoordinates_no_threshold (coordinates : list Point) :
  (forall threshold, (threshold <= 0)%R ->
     groupCoordinates (Some threshold) coordinates = map singletonGroup coordinates)
  /\ groupCoordinates None coordinates = map singletonGroup coordinates.
Proof.
  split.
  - intros threshold Hle.
    rewrite groupCoordinates_forEachPoint, forEachPoint_no_merge; [done |].
    intros p g. apply js_lt_false_Some.
    pose proof (haversineDistance_bounds (coords p) g.1) as [Hge _].
    unfold dist. lra.
  - by rewrite groupCoordinates_forEachPoint, forEachPoint_no_merge.
Qed.

Lemma groupCoordinates_no_threshold_witness :
  groupCoordinates (Some 0%R) [origin; origin] = [singletonGroup origin; singletonGroup origin].
Proof.
  apply (proj1 (groupCoordinates_no_threshold [origin; origin]) 0%R). lra.
Defined.

Lemma forEachPoint_same_place (threshold : R) (c : LatLon) (ps : list Point) :
  (0 < threshold)%R ->
  (forall q, q ∈ ps -> coords q = c) ->
  forall n, forEachPoint (Some threshold) ps [(c, S n)] = [(c, (S n + length ps)%nat)].
Proof.
  intros Hpos. induction ps as [|q ps IH]; intros Hsame n.
  - simpl. by rewrite Nat.add_0_r.
  - assert (coords q = c) as Hq by (apply Hsame, list_elem_of_here).
    rewrite forEachPoint_cons.
    rewrite (mergeIntoClosestGroup_merge _ q _ 0%nat (c, S n)); [| | done].
    + change (<[0%nat := ?g]> [_]) with [g].
      replace (mergedGroup q (c, S n)) with (c, S (S n)).
      * rewrite IH; [f_equal; f_equal; simpl; lia |].
        intros q' Hq'. by apply Hsame, list_elem_of_further.
      * unfold mergedGroup, coords in *. destruct c as [lat lon].
        injection Hq as -> ->. simpl fst. simpl snd.
        assert (0 < INR (S n) + 1)%R by (pose proof (pos_INR (S n)); lra).
        f_equal; [f_equal; field; lra | lia].
    + apply closestGroup_only. unfold dist. simpl. rewrite Hq.
      rewrite haversineDistance_same. lra.
Qed.

Lemma forEachPoint_far_apart (threshold : R) (ps : list Point) :
  forall pre : list Point,
    (forall i j p q, (i < j)%nat -> (pre ++ ps) !! i = Some p -> (pre ++ ps) !! j = Some q ->
                     (threshold <= haversineDistance (coords p) (coords q))%R) ->
    forEachPoint (Some threshold) ps (map singletonGroup pre) = map singletonGroup (pre ++ ps).
Proof.
  induction ps as [|q ps IH]; intros pre Hfar.
  - by rewrite app_nil_r.
  - rewrite forEachPoint_cons, mergeIntoClosestGroup_far.
    + change [(coords q, 1%nat)] with (map singletonGroup [q]).
      rewrite <- map_app, IH; [by rewrite <- app_assoc |].
      intros i j p' q' Hij Hi Hj. rewrite <- app_assoc in Hi, Hj. eauto.
    + intros g [i Hi]%list_elem_of_lookup.
      rewrite list_lookup_fmap in Hi.
      destruct (pre !! i) as [p'|] eqn:Hp'; [| done]. injection Hi as <-.
      unfold dist, singletonGroup. simpl.
      rewrite (proj1 (haversineDistance_sym_refl_aux (coords q) (coords p'))).
      apply (Hfar i (length pre) p' q).
      * by eapply lookup_lt_Some.
      * by rewrite lookup_app_l by (by eapply lookup_lt_Some).
      * by rewrite list_lookup_middle.
Qed.

(** X5: points that are pairwise at least the threshold apart are never
    merged: each becomes a cluster of its own, in input order. *)
Theorem groupCoordinates_far_apart (threshold : R) (coordinates : list Point) :
  (forall i j p q, (i < j)%nat -> coordinates !! i = Some p -> coordinates !! j = Some q ->
                   (threshold <= haversineDistance (coords p) (coords q))%R) ->
  groupCoordinates (Some threshold) coordinates = map singletonGroup coordinates.
Proof.
  intros Hfar. rewrite groupCoordinates_forEachPoint.
  by apply (forEachPoint_far_apart threshold coordinates []).
Qed.

Lemma groupCoordinates_far_apart_witness :
  groupCoordinates (Some 40%R) [origin; east_180] = [singletonGroup origin; singletonGroup east_180].
Proof.
  apply (groupCoordinates_far_apart 40 [origin; east_180]).
  intros [|[|i]] [|[|j]] p q Hij Hi Hj; try lia; try done.
  injection Hi as <-. injection Hj as <-.
  rewrite (proj1 (haversineDistance_sym_refl_aux (coords origin) (coords east_180))).
  change (haversineDistance (coords east_180) (coords origin))
    with (haversineDistance (0, 180)%R (0, 0)%R).
  rewrite haversineDistance_half_turn. pose proof PI_gt_3. lra.
Defined.

Lemma length_le_totalNumberOfPoints (gs : list Group) :
  Forall (fun g : Group => (1 <= g.2)%nat) gs ->
  (length gs <= totalNumberOfPoints gs)%nat.
Proof.
  induction 1 as [|g gs Hg _ IH]; [done |].
  rewrite totalNumberOfPoints_cons. simpl. lia.
Qed.

(** X6: there are never more clusters than points, a non-empty input gives
    at least one cluster, and no cluster is empty. *)
Theorem groupCoordinates_size (maxDistance : option R) (coordinates : list Point) :
  (length (groupCoordinates maxDistance coordinates) <= length coordinates)%nat
  /\ (coordinates <> [] -> groupCoordinates maxDistance coordinates <> [])
  /\ Forall (fun g : Group => (1 <= g.2)%nat) (groupCoordinates maxDistance coordinates).
Proof.
  assert (Forall (fun g : Group => (1 <= g.2)%nat) (groupCoordinates maxDistance coordinates))
    as Hpos.
  { rewrite groupCoordinates_forEachPoint. apply forEachPoint_counts_pos. constructor. }
  pose proof (forEachPoint_total maxDistance coordinates []) as Htotal.
  rewrite <- groupCoordinates_forEachPoint in Htotal.
  change (totalNumberOfPoints []) with 0%nat in Htotal.
  repeat split; [| | done].
  - pose proof (length_le_totalNumberOfPoints _ Hpos). lia.
  - intros Hne Hnil. rewrite Hnil in Htotal. by destruct coordinates.
Qed.

Lemma groupCoordinates_size_witness :
  groupCoordinates (Some 40%R) [origin; east_180] <> [].
Proof.
  apply (proj1 (proj2 (groupCoordinates_size (Some 40%R) [origin; east_180]))).
  discriminate.
Defined.

Lemma mergeIntoClosestGroup_grows (maxDistance : option R) (p : Point) (gs : list Group) :
  grows gs (mergeIntoClosestGroup maxDistance p gs).
Proof.
  intros i g Hi. unfold mergeIntoClosestGroup.
  destruct (closestGroup maxDistance p gs) as [k|].
  - destruct (gs !! k) as [[c n]|] eqn:Hk; [| eauto].
    destruct (decide (k = i)) as [-> | Hne].
    + assert (Some g = Some (c, n)) as [= ->] by exact (eq_trans (eq_sym Hi) Hk).
      exists (mergedGroup p (c, n)). split.
      * apply list_lookup_insert_eq. by eapply lookup_lt_Some.
      * simpl. lia.
    + exists g. by rewrite list_lookup_insert_ne.
  - exists g. split; [| done]. by apply lookup_app_l_Some.
Qed.

Lemma forEachPoint_grows (maxDistance : option R) (ps : list Point) :
  forall gs, grows gs (forEachPoint maxDistance ps gs).
Proof.
  induction ps as [|p ps IH]; intros gs i g Hi; [eauto |].
  rewrite forEachPoint_cons.
  destruct (mergeIntoClosestGroup_grows maxDistance p gs i g Hi) as (g1 & Hg1 & Hle1).
  destruct (IH _ i g1 Hg1) as (g2 & Hg2 & Hle2).
  exists g2. split; [done | lia].
Qed.

Lemma grows_length (gs gs' : list Group) : grows gs gs' -> (length gs <= length gs')%nat.
Proof.
  intros Hgrows. destruct gs as [|g gs _] using rev_ind; [simpl; lia |].
  destruct (Hgrows (length gs) g) as (g' & Hg' & _).
  { by rewrite list_lookup_middle. }
  apply lookup_lt_Some in Hg'. change (length gs < length gs')%nat in Hg'.
  rewrite length_app. simpl. lia.
Qed.

(** X7: clustering more points after the same beginning keeps every
    cluster already formed at its index and never lowers its count; in
    particular no cluster disappears. *)
Theorem groupCoordinates_grows (maxDistance : option R) (coordinates more : list Point) :
  grows (groupCoordinates maxDistance coordinates)
        (groupCoordinates maxDistance (coordinates ++ more))
  /\ (length (groupCoordinates maxDistance coordinates)
      <= length (groupCoordinates maxDistance (coordinates ++ more)))%nat.
Proof.
  rewrite !groupCoordinates_forEachPoint, forEachPoint_app.
  pose proof (forEachPoint_grows maxDistance more (forEachPoint maxDistance coordinates []))
    as Hgrows.
  split; [done | by apply grows_length].
Qed.

Lemma groupCoordinates_grows_witness :
  exists g' : Group,
    groupCoordinates (Some 40%R) ([origin] ++ [east_180]) !! 0%nat = Some g' /\ (1 <= g'.2)%nat.
Proof.
  apply (proj1 (groupCoordinates_grows (Some 40%R) [origin] [east_180]) 0%nat
           (singletonGroup origin)).
  reflexivity.
Defined.


Lemma antimeridian_merged_first :
  length (groupCoordinates (Some 40%R) [east_180; east_180_b; west_180]) = 1%nat.
Proof.
  rewrite groupCoordinates_forEachPoint.
  change [east_180; east_180_b; west_180] with ([east_180; east_180_b] ++ [west_180]).
  rewrite forEachPoint_app.
  assert (forEachPoint (Some 40%R) [east_180; east_180_b] [] = [(coords east_180, 2%nat)])
    as ->.
  { rewrite forEachPoint_cons.
    apply (forEachPoint_same_place 40 (coords east_180) [east_180_b]); [lra |].
    by intros q ->%list_elem_of_singleton. }
  rewrite forEachPoint_cons.
  rewrite (mergeIntoClosestGroup_merge _ west_180 _ 0%nat (coords east_180, 2%nat));
    [reflexivity | | reflexivity].
  apply closestGroup_only.
  change (dist west_180 (coords east_180, 2%nat))
    with (haversineDistance (0, -180)%R (0, 180)%R).
  rewrite haversineDistance_antimeridian_r. lra.
Qed.

Lemma antimeridian_merged_last :
  length (groupCoordinates (Some 40%R) [east_180; west_180; east_180_b]) = 2%nat.
Proof.
  rewrite groupCoordinates_forEachPoint, !forEachPoint_cons.
  change (mergeIntoClosestGroup (Some 40%R) east_180 []) with [((0, 180)%R, 1%nat)].
  rewrite (mergeIntoClosestGroup_merge _ west_180 _ 0%nat ((0, 180)%R, 1%nat));
    [| | reflexivity].
  - change (<[0%nat := ?g]> [_]) with [g].
    replace (mergedGroup west_180 ((0, 180)%R, 1%nat)) with ((0, 0)%R, 2%nat).
    + rewrite mergeIntoClosestGroup_far; [reflexivity |].
      intros g ->%list_elem_of_singleton.
      change (dist east_180_b ((0, 0)%R, 2%nat)) with (dist east_180 ((0, 0)%R, 2%nat)).
      rewrite dist_east_180_origin. pose proof PI_gt_3. lra.
    + unfold mergedGroup, west_180, museumAt. simpl. f_equal. f_equal; field.
  - apply closestGroup_only.
    change (dist west_180 ((0, 180)%R, 1%nat))
      with (haversineDistance (0, -180)%R (0, 180)%R).
    rewrite haversineDistance_antimeridian_r. lra.
Qed.

(** X9: the result depends on the order of the input: there are a
    threshold and two orderings of the same rows that give different
    numbers of clusters. *)
Theorem groupCoordinates_order_dependent :
  exists (threshold : R) (coordinates coordinates' : list Point),
    coordinates ≡ₚ coordinates'
    /\ length (groupCoordinates (Some threshold) coordinates)
       <> length (groupCoordinates (Some threshold) coordinates').
Proof.
  exists 40%R, [east_180; east_180_b; west_180], [east_180; west_180; east_180_b].
  split.
  - apply perm_skip, perm_swap.
  - rewrite antimeridian_merged_first, antimeridian_merged_last. lia.
Qed.

(** ** More on the date filter *)

(** X11: the reference dates at which a row passes the date filter form
    an interval: a row kept at two dates is kept at every date between
    them, and a row with no closing year that is kept at one date is kept
    at every later date. *)
Theorem openAt_interval (d : Point) (D1 D D2 : Z) :
  (openAt (Js.Num D1) d = true -> openAt (Js.Num D2) d = true ->
   (D1 <= D <= D2)%Z -> openAt (Js.Num D) d = true)
  /\
  (year_closed_low d = Js.NaN -> openAt (Js.Num D1) d = true ->
   (D1 <= D)%Z -> openAt (Js.Num D) d = true).
Proof.
  split.
  - intros (? & lo & [= <-] & Hlo & Hle1 & _)%openAt_true
           (? & lo' & [= <-] & Hlo' & _ & Hclosed)%openAt_true Hbetween.
    apply openAt_true. exists D, lo. repeat split; [done | lia |].
    destruct Hclosed as [? | (c & Hc & Hlt)]; [by left | right].
    exists c. split; [done | lia].
  - intros Hnan (? & lo & [= <-] & Hlo & Hle1 & _)%openAt_true Hlater.
    apply openAt_true. exists D, lo. repeat split; [done | lia | by left].
Qed.

Lemma openAt_interval_witness : openAt (Js.Num 1980) closed_2017 = true.
Proof.
  apply (proj1 (openAt_interval closed_2017 1945 1980 2016)); [reflexivity | reflexivity | lia].
Defined.

(** X12: a row is never shown when its yearOpenedLow is NaN, or when its
    closing year is not after its yearOpenedLow; and at a NaN reference
    date no row is shown. *)
Theorem openAt_never (d : Point) :
  (year_opened_low d = Js.NaN -> forall date, openAt date d = false)
  /\ (forall lo c, year_opened_low d = Js.Num lo -> year_closed_low d = Js.Num c ->
                  (c <= lo)%Z -> forall date, openAt date d = false)
  /\ openAt Js.NaN d = false.
Proof.
  repeat split.
  - intros Hnan date. apply not_true_is_false.
    intros (? & lo & _ & Hlo & _)%openAt_true. congruence.
  - intros lo c Hlo Hc Hle date. apply not_true_is_false.
    intros (D & lo' & _ & Hlo' & HleD & [Hnan | (c' & Hc' & Hlt)])%openAt_true.
    + congruence.
    + assert (lo' = lo) by congruence. assert (c' = c) by congruence. lia.
  - apply not_true_is_false. intros (? & ? & [=] & _)%openAt_true.
Qed.

Lemma openAt_never_witness :
  openAt (Js.Num 2000)
    (mkPoint 0 0 "England" (Js.Num 2000) (Js.Num 2000) (Js.Num 2000)) = false.
Proof.
  apply (proj1 (proj2 (openAt_never
           (mkPoint 0 0 "England" (Js.Num 2000) (Js.Num 2000) (Js.Num 2000)))) 2000%Z 2000%Z);
    [reflexivity | reflexivity | lia].
Defined.

(** ** More on the region selection *)

Lemma toggles_snoc (clicks : list nat) (i : nat) (m : MapState) :
  toggles (clicks ++ [i]) m = toggleRegion i (toggles clicks m).
Proof. unfold toggles. by rewrite foldl_app. Qed.

Lemma toggles_names (clicks : list nat) (m : MapState) :
  map name (regionPaths (toggles clicks m)) = map name (regionPaths m).
Proof.
  induction clicks as [|i clicks IH] using rev_ind; [done |].
  by rewrite toggles_snoc, toggleRegion_names.
Qed.

(** The effect of one click on the membership of a name, when the flags
    agree with the selection and the names are distinct. *)
Lemma toggleRegion_member (m : MapState) (i j : nat) (n : string) :
  NoDup (map name (regionPaths m)) ->
  (forall k, flagAgrees m k) ->
  map name (regionPaths m) !! i = Some n ->
  (n ∈ selectedRegions (toggleRegion j m) <->
   if decide (j = i) then n ∉ selectedRegions m else n ∈ selectedRegions m).
Proof.
  intros Hnodup Hall Hi.
  rewrite list_lookup_fmap in Hi.
  destruct (regionPaths m !! i) as [ri|] eqn:Hri; [| done]. injection Hi as <-.
  destruct (regionPaths m !! j) as [rj|] eqn:Hrj.
  - destruct (toggleRegion_hit m j rj Hrj) as [_ ->].
    pose proof (Hall j rj Hrj) as Hagree.
    case_decide as Hji.
    + subst j. assert (rj = ri) as -> by congruence.
      destruct (data_highlighted ri);
        rewrite ?elem_of_difference, ?elem_of_union, !elem_of_singleton; [tauto |].
      split; [| tauto]. intros _ Hin. apply Hagree in Hin. done.
    + assert (name rj <> name ri) as Hne.
      { intros Heq. apply Hji.
        eapply (NoDup_lookup _ j i (name ri) Hnodup).
        - rewrite list_lookup_fmap, Hrj. simpl. by rewrite Heq.
        - by rewrite list_lookup_fmap, Hri. }
      destruct (data_highlighted rj);
        rewrite ?elem_of_difference, ?elem_of_union, !elem_of_singleton;
        intuition congruence.
  - rewrite (toggleRegion_miss m j Hrj).
    case_decide as Hji; [| done]. subst j. congruence.
Qed.

(** X13: on a map whose regions have distinct names, after any sequence
    of clicks a region's name is in the active set exactly when the
    region was clicked an even number of times. *)
Theorem selectedRegions_parity (names : list string) (clicks : list nat) (i : nat) (n : string) :
  NoDup names ->
  names !! i = Some n ->
  (n ∈ selectedRegions (toggles clicks (baseMap names newMap))
   <-> Nat.Even (count_occ Nat.eq_dec clicks i)).
Proof.
  intros Hnodup Hi.
  induction clicks as [|j clicks IH] using rev_ind.
  - simpl. split; [intros _; by exists 0%nat |].
    intros _. apply elem_of_list_to_set, list_elem_of_lookup. eauto.
  - rewrite toggles_snoc, count_occ_app.
    rewrite (toggleRegion_member _ i j n).
    + simpl. destruct (Nat.eq_dec j i) as [-> | Hne].
      * rewrite decide_True by done. rewrite IH.
        replace (count_occ Nat.eq_dec clicks i + 1)%nat
          with (S (count_occ Nat.eq_dec clicks i)) by lia.
        rewrite Nat.Even_succ. split.
        -- intros Hnot. by destruct (Nat.Even_or_Odd (count_occ Nat.eq_dec clicks i)).
        -- intros Hodd Heven. exact (Nat.Even_Odd_False _ Heven Hodd).
      * rewrite decide_False by done. rewrite IH. by rewrite Nat.add_0_r.
    + by rewrite toggles_names, baseMap_names.
    + apply toggles_agree; [by rewrite baseMap_names | apply baseMap_agree].
    + by rewrite toggles_names, baseMap_names.
Qed.

Lemma selectedRegions_parity_witness :
  "Wales" ∈ selectedRegions (toggles [1; 0; 1]%nat (baseMap ["England"; "Wales"] newMap)).
Proof.
  apply (proj2 (selectedRegions_parity ["England"; "Wales"] [1; 0; 1]%nat 1%nat "Wales"
                  ltac:(apply NoDup_cons; split;
                        [rewrite list_elem_of_singleton; discriminate
                        | apply NoDup_singleton])
                  eq_refl)).
  exists 1%nat. reflexivity.
Defined.

Lemma toggleRegion_selection_subset (m : MapState) (i : nat) :
  selectedRegions m ⊆ list_to_set (map name (regionPaths m)) ->
  selectedRegions (toggleRegion i m) ⊆ list_to_set (map name (regionPaths m)).
Proof.
  intros Hsub. destruct (regionPaths m !! i) as [r|] eqn:Hi.
  - destruct (toggleRegion_hit m i r Hi) as [_ ->].
    assert (name r ∈ (list_to_set (map name (regionPaths m)) : gset string)) as Hname.
    { apply elem_of_list_to_set, list_elem_of_lookup. exists i.
      by rewrite list_lookup_fmap, Hi. }
    intros x. destruct (data_highlighted r);
      rewrite ?elem_of_difference, ?elem_of_union, ?elem_of_singleton.
    + intros [Hx _]. by apply Hsub.
    + intros [-> | Hx]; [done | by apply Hsub].
  - by rewrite toggleRegion_miss.
Qed.

(** X14: whatever the names and the clicks, the active set holds names
    of the map's regions only. *)
Theorem selectedRegions_subset (names : list string) (clicks : list nat) :
  selectedRegions (toggles clicks (baseMap names newMap)) ⊆ list_to_set names.
Proof.
  induction clicks as [|i clicks IH] using rev_ind; [done |].
  rewrite toggles_snoc.
  pose proof (toggleRegion_selection_subset (toggles clicks (baseMap names newMap)) i) as Hstep.
  rewrite toggles_names, baseMap_names in Hstep. by apply Hstep.
Qed.

(** X15: clicks on two regions of different names can be made in either
    order: the paths and the active set come out the same. *)
Theorem toggleRegion_commute (m : MapState) (i j : nat) (ri rj : RegionPath) :
  regionPaths m !! i = Some ri ->
  regionPaths m !! j = Some rj ->
  name ri <> name rj ->
  toggleRegion i (toggleRegion j m) = toggleRegion j (toggleRegion i m).
Proof.
  intros Hi Hj Hne.
  assert (i <> j) as Hij by (intros ->; congruence).
  unfold toggleRegion at 2 4. rewrite Hi, Hj.
  unfold toggleRegion.
  destruct (data_highlighted ri) eqn:Hhi, (data_highlighted rj) eqn:Hhj; simpl;
    rewrite !list_lookup_insert_ne by done; rewrite Hi, Hj, ?Hhi, ?Hhj; simpl;
    unfold set_regions; simpl;
    (f_equal;
     [ apply list_insert_insert_ne; done
     | apply set_eq; intros x;
       rewrite ?elem_of_difference, ?elem_of_union, ?elem_of_difference, ?elem_of_union,
         !elem_of_singleton;
       intuition congruence ]).
Qed.

Lemma toggleRegion_commute_witness :
  toggleRegion 0 (toggleRegion 1 (baseMap ["England"; "Wales"] newMap))
  = toggleRegion 1 (toggleRegion 0 (baseMap ["England"; "Wales"] newMap)).
Proof.
  apply (toggleRegion_commute (baseMap ["England"; "Wales"] newMap) 0 1
           (mkRegionPath "England" true) (mkRegionPath "Wales" true));
    [reflexivity | reflexivity | discriminate].
Defined.

(** ** The callback of the second map *)

Lemma new_Set_foldl (values : list string) :
  forall set : list string,
    let result := foldl (fun set x => if bool_decide (x ∈ set) then set else set ++ [x])
                        set values in
    (forall x, x ∈ result <-> x ∈ set \/ x ∈ values)
    /\ (NoDup set -> NoDup result)
    /\ (NoDup (set ++ values) -> result = set ++ values).
Proof.
  induction values as [|v values IH]; intros set; simpl.
  - repeat split; [by left | by intros [? | ?%elem_of_nil] | done | by rewrite app_nil_r].
  - destruct (IH (if bool_decide (v ∈ set) then set else set ++ [v])) as (Hin & Hnd & Hid).
    repeat split.
    + intros Hx. apply Hin in Hx as [Hx | Hx].
      * case_bool_decide; [by left |].
        apply elem_of_app in Hx as [? | ->%list_elem_of_singleton]; [by left |].
        right. apply list_elem_of_here.
      * right. by apply list_elem_of_further.
    + intros [Hx | [-> | Hx]%elem_of_cons]; apply Hin.
      * left. case_bool_decide; [done |]. apply elem_of_app. by left.
      * left. case_bool_decide; [done |]. apply elem_of_app. right.
        by apply list_elem_of_singleton.
      * by right.
    + intros Hset. apply Hnd. case_bool_decide; [done |].
      apply NoDup_app. repeat split; [done | | apply NoDup_singleton].
      by intros x Hx ->%list_elem_of_singleton.
    + intros Hall.
      assert (v ∉ set) as Hv.
      { apply NoDup_app in Hall as (_ & Hdisj & _). intros Hv.
        apply (Hdisj v Hv), list_elem_of_here. }
      rewrite bool_decide_false in Hid |- * by done.
      rewrite Hid; rewrite <- app_assoc; done.
Qed.

Lemma NoDup_List_filter {A : Type} (f : A -> bool) (l : list A) :
  NoDup l -> NoDup (List.filter f l).
Proof.
  induction 1 as [|x l Hx _ IH]; simpl; [constructor |].
  destruct (f x); [| done].
  apply NoDup_cons. split; [| done].
  intros [Hin _]%elem_of_List_filter. done.
Qed.

(** X16: [toggleCountry] leaves in [countries] exactly the selected names
    other than Ireland, Isle of Man and Channel Islands, each once and in
    the order of the selection, so no row of these three areas passes the
    filter of the doughnut. *)
Theorem toggleCountry_excludes (selected : list string) :
  (forall x, x ∈ toggleCountry selected <->
             x ∈ selected /\ x <> "Ireland" /\ x <> "Isle of Man" /\ x <> "Channel Islands")
  /\ NoDup (toggleCountry selected)
  /\ (NoDup selected ->
      toggleCountry selected
      = List.filter (fun x => negb (bool_decide (x ∈ toExclude))) selected)
  /\ countryIncluded (toggleCountry selected) "Ireland" = false
  /\ countryIncluded (toggleCountry selected) "Isle of Man" = false
  /\ countryIncluded (toggleCountry selected) "Channel Islands" = false.
Proof.
  destruct (new_Set_foldl
              (List.filter (fun x => negb (bool_decide (x ∈ toExclude))) selected) [])
    as (Hin & Hnd & Hid).
  simpl in Hin, Hnd, Hid. fold (toggleCountry selected) in Hin, Hnd, Hid.
  assert (forall x, x ∈ toggleCountry selected <->
             x ∈ selected /\ x <> "Ireland" /\ x <> "Isle of Man" /\ x <> "Channel Islands")
    as Hchar.
  { intros x. rewrite Hin, elem_of_nil, elem_of_List_filter, negb_true_iff,
      bool_decide_eq_false.
    unfold toExclude. rewrite !elem_of_union, !elem_of_singleton. tauto. }
  split; [exact Hchar |].
  split; [apply Hnd; constructor |].
  split.
  { intros Hsel. apply Hid. by apply NoDup_List_filter. }
  unfold countryIncluded.
  repeat split; apply bool_decide_eq_false; intros Hx%Hchar; tauto.
Qed.

Lemma toggleCountry_excludes_witness :
  toggleCountry ["England"; "Ireland"; "Wales"] = ["England"; "Wales"].
Proof.
  apply (proj1 (proj2 (proj2 (toggleCountry_excludes ["England"; "Ireland"; "Wales"])))).
  apply NoDup_cons. split.
  - rewrite !elem_of_cons, elem_of_nil. intros [? | [? | []]]; discriminate.
  - apply NoDup_cons. split; [rewrite list_elem_of_singleton; discriminate |].
    apply NoDup_singleton.
Defined.

(** ** The loaded page under any sequence of events *)

Lemma toggleRegion_frame (i : nat) (m : MapState) :
  data (toggleRegion i m) = data m
  /\ filteredData (toggleRegion i m) = filteredData m
  /\ pointScale (toggleRegion i m) = pointScale m
  /\ maxRadius (toggleRegion i m) = maxRadius m
  /\ groupRadius (toggleRegion i m) = groupRadius m
  /\ circles (toggleRegion i m) = circles m.
Proof.
  unfold toggleRegion. destruct (regionPaths m !! i) as [r|]; [| done].
  by destruct (data_highlighted r).
Qed.

Lemma loadPage_inv (names : list string) (points : list Point) (minDate : jsnum) :
  loadedInv names points false (loadPage names points minDate).
Proof.
  unfold loadPage, exec, firstRender, mapRegionsFilterOnDate, the_array, gets, modify,
    mbind, M_bind, mret, M_ret.
  rewrite (filterOnDate_defined minDate (startPage names points minDate) points eq_refl).
  simpl. repeat split; try done.
  - apply (baseMap_names names newMap).
  - exists points. repeat split. by exists minDate.
Qed.

Lemma handle_inv (names : list string) (points : list Point) (wasClicked : bool)
    (ev : Event) (pg : Page) :
  loadedInv names points wasClicked pg ->
  loadedInv names points (wasClicked || clicked [ev]) (exec (handle ev) pg).
Proof.
  intros (Hlog & Hdata & Hgr & Hmr & Hscale & Hnames & Hsub & rows & Hrows & Hkind & Hchart
          & date & Hcircles).
  unfold loadedInv. destruct ev as [i | value | value]; simpl.
  - (* a click *)
    rewrite orb_true_r.
    destruct (toggleRegion_frame i (mapRegions pg)) as (Hd & Hf & Hs & Hm & Hg & Hc).
    assert (selectedRegions (toggleRegion i (mapRegions pg)) ⊆ list_to_set names) as Hsub'.
    { rewrite <- Hnames. apply toggleRegion_selection_subset. by rewrite Hnames. }
    unfold exec, regionToggled, modify, gets, mbind, M_bind. simpl.
    rewrite (filterOnRegion_defined _ _ points) by (simpl; congruence).
    erewrite filterOnDate_defined; [| reflexivity]. simpl.
    rewrite Hd, Hs, Hm, Hg, toggleRegion_names.
    repeat split; try done.
    eexists. split; [reflexivity |]. split; [reflexivity |]. split; [reflexivity |].
    exists (slider_currentValue pg). by rewrite Hgr.
  - (* a drag *)
    rewrite orb_false_r.
    unfold exec, dateChanged, sliderCallback, mapRegionsFilterOnDate, modify, gets,
      mbind, M_bind. simpl.
    rewrite (filterOnDate_defined _ _ rows) by done. simpl.
    repeat split; try done.
    exists rows. split; [done |]. split; [done |]. split; [done |].
    exists value. by rewrite Hgr.
  - (* a tick *)
    rewrite orb_false_r.
    unfold exec, playTick, sliderCallback, mapRegionsFilterOnDate, modify, gets,
      mbind, M_bind. simpl.
    rewrite (filterOnDate_defined _ _ rows) by done. simpl.
    repeat split; try done.
    exists rows. split; [done |]. split; [done |]. split; [done |].
    exists (slider_currentValue pg). by rewrite Hgr.
Qed.

Lemma after_snoc (evs : list Event) (ev : Event) (pg : Page) :
  after (evs ++ [ev]) pg = exec (handle ev) (after evs pg).
Proof. unfold after. by rewrite foldl_app. Qed.

Lemma clicked_app (evs evs' : list Event) : clicked (evs ++ evs') = clicked evs || clicked evs'.
Proof. apply existsb_app. Qed.

Lemma after_inv (names : list string) (points : list Point) (minDate : jsnum)
    (evs : list Event) :
  loadedInv names points (clicked evs) (after evs (loadPage names points minDate)).
Proof.
  induction evs as [|ev evs IH] using rev_ind; [apply loadPage_inv |].
  rewrite after_snoc, clicked_app. by apply handle_inv.
Qed.

Lemma length_List_filter {A : Type} (f : A -> bool) (l : list A) :
  (length (List.filter f l) <= length l)%nat.
Proof. induction l as [|x l IH]; simpl; [done |]. destruct (f x); simpl; lia. Qed.

(** X17: on the page as loaded, whatever the user then does, no handler
    ever logs an exception, and no event changes the full dataset, the
    point scale computed at loading, the two radii or the names of the
    region paths. *)
Theorem loaded_page_stable (names : list string) (points : list Point) (minDate : jsnum)
    (evs : list Event) :
  console (after evs (loadPage names points minDate)) = []
  /\ data (mapRegions (after evs (loadPage names points minDate))) = Some points
  /\ pointScale (mapRegions (after evs (loadPage names points minDate)))
     = pointScale (mapRegions (loadPage names points minDate))
  /\ groupRadius (mapRegions (after evs (loadPage names points minDate))) = Some 40%R
  /\ maxRadius (mapRegions (after evs (loadPage names points minDate))) = Some 20%R
  /\ map name (regionPaths (mapRegions (after evs (loadPage names points minDate)))) = names.
Proof.
  destruct (after_inv names points minDate evs)
    as (Hlog & Hdata & Hgr & Hmr & Hscale & Hnames & _).
  destruct (loadPage_inv names points minDate) as (_ & _ & _ & _ & Hscale0 & _).
  rewrite Hscale, Hscale0. done.
Qed.

(** X18: after any events the map shows the clusters of the rows of the
    current region subset that pass the date filter at some date, the line
    chart is drawn from that subset less the artifact rows, every row of
    the subset is a row of the dataset, and the total on the map is at
    most the size of the dataset. *)
Theorem loaded_page_shows (names : list string) (points : list Point) (minDate : jsnum)
    (evs : list Event) :
  exists (rows : list Point) (date : jsnum),
    filteredData (mapRegions (after evs (loadPage names points minDate))) = Some rows
    /\ lineChart (after evs (loadPage names points minDate)) = Some (filterLineChartData rows)
    /\ circles (mapRegions (after evs (loadPage names points minDate)))
       = groupCoordinates (Some 40%R) (List.filter (openAt date) rows)
    /\ (forall d, d ∈ rows -> d ∈ points)
    /\ (totalNumberOfPoints (circles (mapRegions (after evs (loadPage names points minDate))))
        <= length points)%nat.
Proof.
  destruct (after_inv names points minDate evs)
    as (_ & _ & _ & _ & _ & _ & _ & rows & Hrows & Hkind & Hchart & date & Hcircles).
  exists rows, date. repeat split; try done.
  - intros d Hd. rewrite Hkind in Hd.
    destruct (clicked evs); [by apply elem_of_List_filter in Hd as [? _] | done].
  - rewrite Hcircles, groupCoordinates_forEachPoint, forEachPoint_total.
    change (totalNumberOfPoints []) with 0%nat. simpl.
    pose proof (length_List_filter (openAt date) rows).
    assert (length rows <= length points)%nat; [| lia].
    rewrite Hkind. destruct (clicked evs); [apply length_List_filter | done].
Qed.

(** X19: until a region is clicked the region subset is the whole
    dataset, whatever the regions of its rows; from the first click on it
    holds exactly the rows whose region is in the active set, so every
    row it holds then has the name of a region of the map. *)
Theorem loaded_page_subset (names : list string) (points : list Point) (minDate : jsnum)
    (evs : list Event) :
  (clicked evs = false ->
   filteredData (mapRegions (after evs (loadPage names points minDate))) = Some points)
  /\
  (clicked evs = true ->
   exists rows,
     filteredData (mapRegions (after evs (loadPage names points minDate))) = Some rows
     /\ (forall d, d ∈ rows <->
                   d ∈ points
                   /\ region d ∈ selectedRegions
                                   (mapRegions (after evs (loadPage names points minDate))))
     /\ (forall d, d ∈ rows -> region d ∈ names)).
Proof.
  destruct (after_inv names points minDate evs)
    as (_ & _ & _ & _ & _ & _ & Hsub & rows & Hrows & Hkind & _).
  split; intros Hclicked; rewrite Hclicked in Hkind.
  - by rewrite Hrows, Hkind.
  - exists rows. split; [done |].
    assert (forall d, d ∈ rows <->
              d ∈ points
              /\ region d ∈ selectedRegions
                              (mapRegions (after evs (loadPage names points minDate))))
      as Hchar.
    { intros d. by rewrite Hkind, elem_of_List_filter, bool_decide_eq_true. }
    split; [exact Hchar |].
    intros d [_ Hsel]%Hchar. apply Hsub in Hsel. by apply elem_of_list_to_set in Hsel.
Qed.

Lemma loaded_page_subset_witness :
  filteredData (mapRegions (after [SliderDrag (Js.Num 2000)]
                              (loadPage ["England"] [origin; east_180_b] (Js.Num 1850))))
    = Some [origin; east_180_b]
  /\ exists rows,
       filteredData (mapRegions (after [RegionClick 0]
                                   (loadPage ["England"] [origin; east_180_b] (Js.Num 1850))))
         = Some rows
       /\ forall d, d ∈ rows -> region d ∈ ["England"].
Proof.
  split.
  - apply (proj1 (loaded_page_subset ["England"] [origin; east_180_b] (Js.Num 1850)
                    [SliderDrag (Js.Num 2000)]) eq_refl).
  - destruct (proj2 (loaded_page_subset ["England"] [origin; east_180_b] (Js.Num 1850)
                       [RegionClick 0]) eq_refl) as (rows & Hrows & _ & Hnames).
    exists rows. split; [exact Hrows | exact Hnames].
Defined.

(** ** The range of the slider *)

Lemma d3_min_foldl (values : list (option Z)) :
  forall acc : option Z,
    match foldl (fun min value =>
                   match value, min with
                   | None, _ => min
                   | Some v, None => Some v
                   | Some v, Some m => if (v <? m)%Z then Some v else Some m
                   end) acc values with
    | None => acc = None /\ forall v, Some v ∉ values
    | Some m => (acc = Some m \/ Some m ∈ values)
                /\ (forall a, acc = Some a -> (m <= a)%Z)
                /\ (forall v, Some v ∈ values -> (m <= v)%Z)
    end.
Proof.
  induction values as [|[v|] values IH]; intros acc; simpl.
  - destruct acc as [a|].
    + repeat split; [by left | by intros ? [= ->] | by intros ? ?%elem_of_nil].
    + split; [done | by intros ? ?%elem_of_nil].
  - match goal with |- context [foldl _ ?acc' values] => specialize (IH acc') end.
    destruct (foldl _ _ values) as [m|].
    + destruct IH as (Hwhere & Hacc & Hall).
      assert (m <= v)%Z as Hmv.
      { destruct acc as [a|]; [destruct (Z.ltb_spec v a) |];
          [specialize (Hacc v eq_refl) | specialize (Hacc a eq_refl) |
           specialize (Hacc v eq_refl)]; lia. }
      repeat split.
      * destruct Hwhere as [Hw | Hw]; [| right; by apply list_elem_of_further].
        destruct acc as [a|]; [destruct (Z.ltb_spec v a) |]; injection Hw as <-;
          first [by left | right; apply list_elem_of_here].
      * intros a ->. destruct (Z.ltb_spec v a); [lia | by apply Hacc].
      * intros w [[= ->] | Hw]%elem_of_cons; [done | by apply Hall].
    + destruct IH as [Hnone _]. by destruct acc as [a|]; [destruct (v <? a)%Z |].
  - specialize (IH acc). destruct (foldl _ acc values) as [m|].
    + destruct IH as (Hwhere & Hacc & Hall). repeat split; [| done |].
      * destruct Hwhere; [by left | right; by apply list_elem_of_further].
      * intros w [[=] | Hw]%elem_of_cons. by apply Hall.
    + destruct IH as [-> Hall]. split; [done |].
      intros w [[=] | Hw]%elem_of_cons. by apply (Hall w).
Qed.

(** [d3.min]: a lower bound that is one of the values, or nothing when
    there is no value to compare. *)
Lemma d3_min_spec (values : list (option Z)) :
  match d3_min values with
  | None => forall v, Some v ∉ values
  | Some m => Some m ∈ values /\ forall v, Some v ∈ values -> (m <= v)%Z
  end.
Proof.
  pose proof (d3_min_foldl values None) as H. unfold d3_min.
  destruct (foldl _ None values) as [m|].
  - destruct H as ([[=] | Hin] & _ & Hall). done.
  - by destruct H.
Qed.

Lemma d3_max_foldl (values : list (option Z)) :
  forall acc : option Z,
    match foldl (fun max value =>
                   match value, max with
                   | None, _ => max
                   | Some v, None => Some v
                   | Some v, Some m => if (m <? v)%Z then Some v else Some m
                   end) acc values with
    | None => acc = None /\ forall v, Some v ∉ values
    | Some m => (acc = Some m \/ Some m ∈ values)
                /\ (forall a, acc = Some a -> (a <= m)%Z)
                /\ (forall v, Some v ∈ values -> (v <= m)%Z)
    end.
Proof.
  induction values as [|[v|] values IH]; intros acc; simpl.
  - destruct acc as [a|].
    + repeat split; [by left | by intros ? [= ->] | by intros ? ?%elem_of_nil].
    + split; [done | by intros ? ?%elem_of_nil].
  - match goal with |- context [foldl _ ?acc' values] => specialize (IH acc') end.
    destruct (foldl _ _ values) as [m|].
    + destruct IH as (Hwhere & Hacc & Hall).
      assert (v <= m)%Z as Hmv.
      { destruct acc as [a|]; [destruct (Z.ltb_spec a v) |];
          [specialize (Hacc v eq_refl) | specialize (Hacc a eq_refl) |
           specialize (Hacc v eq_refl)]; lia. }
      repeat split.
      * destruct Hwhere as [Hw | Hw]; [| right; by apply list_elem_of_further].
        destruct acc as [a|]; [destruct (Z.ltb_spec a v) |]; injection Hw as <-;
          first [by left | right; apply list_elem_of_here].
      * intros a ->. destruct (Z.ltb_spec a v); [lia | by apply Hacc].
      * intros w [[= ->] | Hw]%elem_of_cons; [done | by apply Hall].
    + destruct IH as [Hnone _]. by destruct acc as [a|]; [destruct (a <? v)%Z |].
  - specialize (IH acc). destruct (foldl _ acc values) as [m|].
    + destruct IH as (Hwhere & Hacc & Hall). repeat split; [| done |].
      * destruct Hwhere; [by left | right; by apply list_elem_of_further].
      * intros w [[=] | Hw]%elem_of_cons. by apply Hall.
    + destruct IH as [-> Hall]. split; [done |].
      intros w [[=] | Hw]%elem_of_cons. by apply (Hall w).
Qed.

Lemma d3_max_num_spec (values : list (option Z)) :
  match d3_max_num values with
  | None => forall v, Some v ∉ values
  | Some m => Some m ∈ values /\ forall v, Some v ∈ values -> (v <= m)%Z
  end.
Proof.
  pose proof (d3_max_foldl values None) as H. unfold d3_max_num.
  destruct (foldl _ None values) as [m|].
  - destruct H as ([[=] | Hin] & _ & Hall). done.
  - by destruct H.
Qed.

Lemma d3_min_pair (xs ys : list (option Z)) :
  match d3_min [d3_min xs; d3_min ys] with
  | None => forall v, (Some v ∉ xs) /\ (Some v ∉ ys)
  | Some m => (Some m ∈ xs \/ Some m ∈ ys)
              /\ forall v, Some v ∈ xs \/ Some v ∈ ys -> (m <= v)%Z
  end.
Proof.
  pose proof (d3_min_spec xs) as Hx. pose proof (d3_min_spec ys) as Hy.
  pose proof (d3_min_spec [d3_min xs; d3_min ys]) as Hxy.
  destruct (d3_min [d3_min xs; d3_min ys]) as [m|].
  - destruct Hxy as [Hin Hle]. split.
    + rewrite !elem_of_cons, elem_of_nil in Hin.
      destruct Hin as [Hm | [Hm | []]]; rewrite <- Hm in *; [left | right]; tauto.
    + intros v [Hv | Hv].
      * destruct (d3_min xs) as [mx|]; [| by apply Hx in Hv].
        destruct Hx as [_ Hx]. specialize (Hx v Hv).
        specialize (Hle mx (list_elem_of_here _ _)). lia.
      * destruct (d3_min ys) as [my|]; [| by apply Hy in Hv].
        destruct Hy as [_ Hy]. specialize (Hy v Hv).
        specialize (Hle my (list_elem_of_further _ _ _ (list_elem_of_here _ _))). lia.
  - intros v.
    destruct (d3_min xs) as [mx|]; [exfalso; apply (Hxy mx), list_elem_of_here |].
    destruct (d3_min ys) as [my|];
      [exfalso; apply (Hxy my), list_elem_of_further, list_elem_of_here |].
    split; [apply Hx | apply Hy].
Qed.

Lemma d3_max_pair (xs ys : list (option Z)) :
  match d3_max_num [d3_max_num xs; d3_max_num ys] with
  | None => forall v, (Some v ∉ xs) /\ (Some v ∉ ys)
  | Some m => (Some m ∈ xs \/ Some m ∈ ys)
              /\ forall v, Some v ∈ xs \/ Some v ∈ ys -> (v <= m)%Z
  end.
Proof.
  pose proof (d3_max_num_spec xs) as Hx. pose proof (d3_max_num_spec ys) as Hy.
  pose proof (d3_max_num_spec [d3_max_num xs; d3_max_num ys]) as Hxy.
  destruct (d3_max_num [d3_max_num xs; d3_max_num ys]) as [m|].
  - destruct Hxy as [Hin Hle]. split.
    + rewrite !elem_of_cons, elem_of_nil in Hin.
      destruct Hin as [Hm | [Hm | []]]; rewrite <- Hm in *; [left | right]; tauto.
    + intros v [Hv | Hv].
      * destruct (d3_max_num xs) as [mx|]; [| by apply Hx in Hv].
        destruct Hx as [_ Hx]. specialize (Hx v Hv).
        specialize (Hle mx (list_elem_of_here _ _)). lia.
      * destruct (d3_max_num ys) as [my|]; [| by apply Hy in Hv].
        destruct Hy as [_ Hy]. specialize (Hy v Hv).
        specialize (Hle my (list_elem_of_further _ _ _ (list_elem_of_here _ _))). lia.
  - intros v.
    destruct (d3_max_num xs) as [mx|]; [exfalso; apply (Hxy mx), list_elem_of_here |].
    destruct (d3_max_num ys) as [my|];
      [exfalso; apply (Hxy my), list_elem_of_further, list_elem_of_here |].
    split; [apply Hx | apply Hy].
Qed.

Lemma numeric_elem_of (column : Point -> jsnum) (rows : list Point) (d : Point) (z : Z) :
  d ∈ rows -> column d = Js.Num z -> Some z ∈ map (fun d => numeric (column d)) rows.
Proof.
  intros Hd Hz. apply list_elem_of_fmap. exists d. by rewrite Hz.
Qed.

Lemma List_filter_nil {A : Type} (f : A -> bool) (l : list A) :
  (forall x, x ∈ l -> f x = false) -> List.filter f l = [].
Proof.
  induction l as [|x l IH]; intros Hall; simpl; [done |].
  rewrite (Hall x (list_elem_of_here _ _)). apply IH.
  intros y Hy. by apply Hall, list_elem_of_further.
Qed.

(** X20: with the slider's first year computed by [calculateDates], no
    row passes the date filter at an earlier year; the rows that pass it
    at the first year are rows whose yearOpenedLow is that year; and when
    no year of the dataset is a number, no row passes at any date. *)
Theorem calculateDates_minDate (rows : list Point) :
  (forall mn D, (calculateDates rows).1 = Some mn -> (D < mn)%Z ->
                List.filter (openAt (Js.Num D)) rows = [])
  /\ (forall d, d ∈ List.filter (openAt (js_of (calculateDates rows).1)) rows ->
                year_opened_low d = js_of (calculateDates rows).1)
  /\ ((calculateDates rows).1 = None -> forall date, List.filter (openAt date) rows = []).
Proof.
  pose proof (d3_min_pair (map (fun d => numeric (year_opened_low d)) rows)
                          (map (fun d => numeric (year_closed_low d)) rows)) as Hmin.
  unfold calculateDates. simpl.
  destruct (d3_min _) as [mn|]; repeat split.
  - intros ? D [= <-] HD. apply List_filter_nil. intros d Hd.
    apply not_true_is_false. intros (? & lo & [= <-] & Hlo & Hle & _)%openAt_true.
    destruct Hmin as [_ Hmin].
    specialize (Hmin lo (or_introl (numeric_elem_of year_opened_low rows d lo Hd Hlo))). lia.
  - intros d [Hd (? & lo & [= <-] & Hlo & Hle & _)%openAt_true]%elem_of_List_filter.
    destruct Hmin as [_ Hmin].
    specialize (Hmin lo (or_introl (numeric_elem_of year_opened_low rows d lo Hd Hlo))).
    rewrite Hlo. simpl. f_equal. lia.
  - done.
  - done.
  - intros d [_ (? & ? & [=] & _)%openAt_true]%elem_of_List_filter.
  - intros _ date. apply List_filter_nil. intros d Hd.
    apply not_true_is_false. intros (? & lo & _ & Hlo & _)%openAt_true.
    destruct (Hmin lo) as [Hnone _].
    apply Hnone. by apply (numeric_elem_of year_opened_low rows d lo).
Qed.

Lemma calculateDates_minDate_witness :
  List.filter (openAt (Js.Num 1800)) [closed_2017; opened_1990_2000] = [].
Proof.
  apply (proj1 (calculateDates_minDate [closed_2017; opened_1990_2000]) 1945%Z 1800%Z);
    [reflexivity | lia].
Defined.

(** X21: the slider's last year computed by [calculateDates] is not
    before its first year, and the rows that pass the date filter at the
    last year are exactly those with a numeric yearOpenedLow and no
    closing year. *)
Theorem calculateDates_maxDate (rows : list Point) (mx : Z) :
  (calculateDates rows).2 = Some mx ->
  (exists mn, (calculateDates rows).1 = Some mn /\ (mn <= mx)%Z)
  /\ forall d, d ∈ rows ->
       (openAt (Js.Num mx) d = true <->
        (exists lo, year_opened_low d = Js.Num lo) /\ year_closed_low d = Js.NaN).
Proof.
  pose proof (d3_min_pair (map (fun d => numeric (year_opened_low d)) rows)
                          (map (fun d => numeric (year_closed_low d)) rows)) as Hmin.
  pose proof (d3_max_pair (map (fun d => numeric (year_opened_low d)) rows)
                          (map (fun d => numeric (year_closed_low d)) rows)) as Hmax.
  unfold calculateDates. simpl. intros Hmx. rewrite Hmx in Hmax.
  destruct Hmax as [Hin Hle]. split.
  - destruct (d3_min _) as [mn|].
    + exists mn. split; [done |]. destruct Hmin as [_ Hmin]. by apply Hmin.
    + exfalso. destruct (Hmin mx) as [Hx Hy]. tauto.
  - intros d Hd. rewrite openAt_true. split.
    + intros (? & lo & [= <-] & Hlo & _ & [Hnan | (c & Hc & Hlt)]); [by eauto |].
      specialize (Hle c (or_intror (numeric_elem_of year_closed_low rows d c Hd Hc))). lia.
    + intros [[lo Hlo] Hnan]. exists mx, lo. repeat split; [done | | by left].
      apply Hle. left. by apply (numeric_elem_of year_opened_low rows d lo).
Qed.

Lemma calculateDates_maxDate_witness :
  openAt (Js.Num 2017) opened_1990_2000 = true.
Proof.
  apply (proj2 (calculateDates_maxDate [closed_2017; opened_1990_2000] 2017 eq_refl)
           opened_1990_2000).
  - apply list_elem_of_further, list_elem_of_here.
  - split; [by exists 1990%Z | reflexivity].
Defined.
